(** * Service.h: a single-worker task executor

    A shallow embedding of [CServiceFunction] (the task handle) and
    [CServiceThread] (the worker with its queue, mutex, condition variable
    and shutdown flags), followed by the properties of the design document
    that can be settled on it.

    Conventions of the embedding.
    - A [CServiceFunction*] is an address into a heap of task handles
      ([gmap addr CServiceFunction]); [new] allocates at a counter that only
      grows, so an address names one task for ever; [delete] removes the
      entry, and deleting or calling through a dangling pointer is a fault.
    - A data member that a constructor may leave without a value is a
      [member]: [Indeterminate] or [Init v].  A pointer is an [option]:
      [None] is [NULL].
    - Undefined behaviour and uncaught exceptions are explicit: the worker
      ends in [WFault e].
    - Callables and hook objects are opaque; what they do is recorded as
      events in a trace, tagged with the handle they were called through.
    - Threads interleave at the granularity of the steps of [step]: one
      guarded test of [Wait] is one step, and so is the critical section of
      a posting call.  The three flags are [atomic_bool]s; [m_bWork] only
      ever goes from true to false and [m_bDeleteLater] from false to true,
      so a test that reads two of them sees values they had together at
      some moment of the test.
    - A method is called on an instance that exists: after [delete this]
      ([WDone]) and after a fault no thread takes a step. *)

From Equations Require Import Equations.
From stdpp Require Import base tactics option list gmap.

(** ** Data model *)

(** Address of a heap-allocated [CServiceFunction]. *)
Definition addr := nat.

(** Identity of a [CServiceFunctionHandler] object (the hook). *)
Definition handler := nat.

(** What [m_Context] wraps: the posted function object, or the result of
    [boost::bind(f, args...)]. *)
Inductive callable :=
| Closure (id : nat)
| Bound (func : nat) (args : list nat).

(** Threads: the one worker running [Wait], and the posting threads. *)
Inductive tid :=
| Worker
| Producer (n : nat).

#[global] Instance tid_eq_dec : EqDecision tid.
Proof. solve_decision. Defined.

#[global] Instance callable_eq_dec : EqDecision callable.
Proof. solve_decision. Defined.

(** A data member: a constructor without an initialiser for it leaves it
    [Indeterminate]. *)
Inductive member (A : Type) :=
| Indeterminate
| Init (a : A).
Arguments Indeterminate {A}.
Arguments Init {A} a.

Inductive fault :=
| NullDeref                (* call through a NULL [m_pHandler] *)
| IndeterminateRead        (* read of a member no constructor initialised *)
| DanglingCall (p : addr)  (* [p->Run()] on a freed handle *)
| DoubleFree (p : addr)    (* [delete] of a freed handle *)
| EmptyFront               (* [m_WorkQueue[0]] on an empty deque *)
| LockError.               (* [unlock()] of a lock that is not owned: boost::lock_error *)

Inductive result (A : Type) :=
| Ok (a : A)
| Fault (e : fault).
Arguments Ok {A} a.
Arguments Fault {A} e.

(** Observable events. *)
Inductive event :=
| EvNew (p : addr)                    (* [new CServiceFunction] then [push_back] *)
| EvPopFront (p : addr)               (* the worker took [p] off the front *)
| EvOnCall (p : addr) (h : handler)   (* [m_pHandler->OnCallFunction()] *)
| EvBody (p : addr) (c : callable)    (* [m_Context->run()] *)
| EvOnReturn (p : addr) (h : handler) (* [m_pHandler->OnReturnFunction()] *)
| EvRelease (p : addr).               (* [p->Release()], that is [delete p] *)

#[global] Instance event_eq_dec : EqDecision event.
Proof. solve_decision. Defined.

(** ** CServiceFunction *)

Record CServiceFunction := mkFunction {
  m_pHandler : member (option handler);
  m_Context : callable
}.

Module Ctor.

(** Line 26: [CServiceFunction(f) : m_pHandler(NULL)]. *)
Definition of_callable (f : callable) : CServiceFunction :=
  mkFunction (Init None) f.

(** Line 31: [CServiceFunction(f, pHandler) : m_pHandler(pHandler)]. *)
Definition of_callable_handler (f : callable) (pHandler : option handler)
  : CServiceFunction :=
  mkFunction (Init pHandler) f.

(** Line 36: [CServiceFunction(f, args...) : m_pHandler(NULL)], wrapping
    [boost::bind(f, args...)]. *)
Definition of_bind (func : nat) (args : list nat) : CServiceFunction :=
  mkFunction (Init None) (Bound func args).

(** Line 41: [CServiceFunction(pHandler, f, args...) : m_pHandler(pHandler)]. *)
Definition of_handler_bind (pHandler : option handler) (func : nat)
    (args : list nat) : CServiceFunction :=
  mkFunction (Init pHandler) (Bound func args).

(** Line 46: [CServiceFunction(attr, f)] has no member initialiser list
    and its body assigns [m_Context] only. *)
Definition of_attributes (attr : nat) (f : callable) : CServiceFunction :=
  mkFunction Indeterminate f.

End Ctor.

(** Reading the pointer member, then calling through it. *)
Definition deref (m : member (option handler)) : result handler :=
  match m with
  | Indeterminate => Fault IndeterminateRead
  | Init None => Fault NullDeref
  | Init (Some h) => Ok h
  end.

(** Lines 64-68, [CServiceFunction::Run]: three calls in a row, the first
    and the last through [m_pHandler], with no test of the pointer. *)
Definition Run (p : addr) (fn : CServiceFunction) : result (list event) :=
  match deref (m_pHandler fn) with
  | Fault e => Fault e
  | Ok h1 =>
      let call := [EvOnCall p h1] in
      let body := [EvBody p (m_Context fn)] in
      match deref (m_pHandler fn) with
      | Fault e => Fault e
      | Ok h2 => Ok (call ++ body ++ [EvOnReturn p h2])
      end
  end.

(** ** CServiceThread *)

(** Where the worker thread stands in [Wait] (the numbers are source lines). *)
Inductive wpc :=
| W131               (* [scoped_lock lock(m_Mutex)]: waiting for the mutex *)
| W133               (* [while (m_bWork)] *)
| W135               (* [if (!lock.owns_lock()) lock.lock()] *)
| W140               (* [m_Condition.wait(lock, pred)]: evaluating [pred] *)
| W140_block         (* [pred] was false: about to give up the mutex and sleep *)
| W140_sleep         (* asleep on [m_Condition] *)
| W140_wake          (* notified: waiting to take the mutex again *)
| W147               (* [if (m_bDeleteLater && m_WorkQueue.empty())] *)
| W153               (* [if (!m_bWork)] *)
| W159               (* [f = m_WorkQueue[0]; pop_front(); lock.unlock()] *)
| W164 (f : addr)    (* [f->Run()] *)
| W165 (f : addr)    (* [f->Release()] *)
| W168               (* [lock.unlock()] after the loop *)
| WSafeRelease       (* [SafeRelease()]: [delete this], so [~CServiceThread], so [Clear] *)
| WDone              (* the instance is destroyed and [Wait] has returned *)
| WFault (e : fault).

#[global] Instance fault_eq_dec : EqDecision fault.
Proof. solve_decision. Defined.

#[global] Instance wpc_eq_dec : EqDecision wpc.
Proof. solve_decision. Defined.

(** The instance, the heap of task handles, the worker's position and the
    trace of events so far. *)
Record State := mkState {
  m_WorkQueue : list addr;
  m_Mutex : option tid;          (* who holds [m_Mutex] *)
  m_bBusy : bool;
  m_bWork : bool;
  m_bDeleteLater : bool;
  heap : gmap addr CServiceFunction;
  next : addr;                   (* where the next [new] allocates *)
  pc : wpc;
  trace : list event
}.

Definition set_queue (q : list addr) (s : State) : State :=
  mkState q (m_Mutex s) (m_bBusy s) (m_bWork s) (m_bDeleteLater s)
          (heap s) (next s) (pc s) (trace s).
Definition set_mutex (o : option tid) (s : State) : State :=
  mkState (m_WorkQueue s) o (m_bBusy s) (m_bWork s) (m_bDeleteLater s)
          (heap s) (next s) (pc s) (trace s).
Definition set_busy (b : bool) (s : State) : State :=
  mkState (m_WorkQueue s) (m_Mutex s) b (m_bWork s) (m_bDeleteLater s)
          (heap s) (next s) (pc s) (trace s).
Definition set_work (b : bool) (s : State) : State :=
  mkState (m_WorkQueue s) (m_Mutex s) (m_bBusy s) b (m_bDeleteLater s)
          (heap s) (next s) (pc s) (trace s).
Definition set_deleteLater (b : bool) (s : State) : State :=
  mkState (m_WorkQueue s) (m_Mutex s) (m_bBusy s) (m_bWork s) b
          (heap s) (next s) (pc s) (trace s).
Definition set_heap (h : gmap addr CServiceFunction) (s : State) : State :=
  mkState (m_WorkQueue s) (m_Mutex s) (m_bBusy s) (m_bWork s) (m_bDeleteLater s)
          h (next s) (pc s) (trace s).
Definition set_next (n : addr) (s : State) : State :=
  mkState (m_WorkQueue s) (m_Mutex s) (m_bBusy s) (m_bWork s) (m_bDeleteLater s)
          (heap s) n (pc s) (trace s).
Definition set_pc (c : wpc) (s : State) : State :=
  mkState (m_WorkQueue s) (m_Mutex s) (m_bBusy s) (m_bWork s) (m_bDeleteLater s)
          (heap s) (next s) c (trace s).
Definition log (evs : list event) (s : State) : State :=
  mkState (m_WorkQueue s) (m_Mutex s) (m_bBusy s) (m_bWork s) (m_bDeleteLater s)
          (heap s) (next s) (pc s) (trace s ++ evs).

(** Lines 109-115, the constructor: flags initialised, empty queue, and the
    worker thread started on [Wait]. *)
Definition CServiceThread_new : State :=
  mkState [] None false true false ∅ 0 W131 [].

(** Lines 60-62, [CServiceFunction::Release]: [delete this].  Deleting a
    handle that is no longer allocated is a fault. *)
Definition Function_Release (p : addr) (s : State) : State :=
  let s := log [EvRelease p] s in
  match heap s !! p with
  | Some _ => set_heap (delete p (heap s)) s
  | None => set_pc (WFault (DoubleFree p)) s
  end.

Definition faulted (s : State) : bool :=
  match pc s with WFault _ => true | _ => false end.

Definition inspect {A : Type} (a : A) : {b : A | a = b} := exist _ a eq_refl.

(** Lines 99-106, [Clear]: while the queue is not empty, release the handle
    at index 0 and [pop_back()]. *)
Equations? Clear (s : State) : State by wf (length (m_WorkQueue s)) lt :=
  Clear s with inspect (m_WorkQueue s) := {
    | exist _ [] _ => s
    | exist _ (p :: q) Hq =>
        let s1 := Function_Release p s in
        if faulted s1 then s1
        else Clear (set_queue (removelast (p :: q)) s1) }.
Proof.
  cbn [set_queue m_WorkQueue]. rewrite Hq.
  assert (Hlen : forall (l : list addr) (a : addr),
             length (removelast (a :: l)) = length l).
  { induction l as [|x l IH]; intros a; [reflexivity|].
    change (S (length (removelast (x :: l))) = S (length l)). by rewrite IH. }
  rewrite Hlen. simpl. lia.
Qed.

(** [m_WorkQueue.empty()]. *)
Definition empty (q : list addr) : bool :=
  match q with [] => true | _ :: _ => false end.

(** [m_Condition.notify_all()]: a worker asleep on the condition variable
    is woken; a notification sent while nobody sleeps is lost. *)
Definition notify_all (s : State) : State :=
  match pc s with
  | W140_sleep => set_pc W140_wake s
  | _ => s
  end.

(** Lines 117-121, [Release]: no lock is taken. *)
Definition Release (s : State) : State :=
  notify_all (set_work false s).

(** Lines 123-127, [ReleaseAfterWork]: no lock is taken. *)
Definition ReleaseAfterWork (s : State) : State :=
  notify_all (set_deleteLater true s).

(** The posting calls and the constructor each of them uses. *)
Inductive post_call :=
| PostF (f : callable)                              (* line 194, [Post(f)] *)
| PostFH (f : callable) (pHandler : option handler) (* line 209, [Post(f, pHandler)] *)
| PostBind (pHandler : option handler) (func : nat) (params : list nat)
                                                    (* line 224, [Post(pHandler, func, params...)] *)
| TryPostF (f : callable).                          (* line 173, [TryPost(f)] *)

Definition new_handle (k : post_call) : CServiceFunction :=
  match k with
  | PostF f => Ctor.of_callable f
  | PostFH f pHandler => Ctor.of_callable_handler f pHandler
  | PostBind pHandler func params =>
      Ctor.of_callable_handler (Bound func params) pHandler
  | TryPostF f => Ctor.of_callable f
  end.

(** [pFunction = new CServiceFunction(...); m_WorkQueue.push_back(pFunction)]. *)
Definition enqueue (fn : CServiceFunction) (s : State) : State :=
  let p := next s in
  log [EvNew p]
    (set_queue (m_WorkQueue s ++ [p])
       (set_next (S p) (set_heap (<[p := fn]> (heap s)) s))).

(** Lines 179-185, 198-204, 213-219, 228-234: what every posting call does
    once it holds the lock. *)
Definition critical (k : post_call) (s : State) : State :=
  if negb (m_bDeleteLater s) && m_bWork s
  then notify_all (enqueue (new_handle k) s)
  else s.

(** Lines 194-236, the three [Post] overloads: [scoped_lock lock(m_Mutex)]
    blocks until the mutex is free ([None]: the caller is still blocked),
    then the critical section, then the lock's destructor unlocks.  The
    return type is [void]. *)
Definition Post (t : nat) (k : post_call) (s : State) : option State :=
  match m_Mutex s with
  | None =>
      Some (set_mutex None (critical k (set_mutex (Some (Producer t)) s)))
  | Some _ => None
  end.

(** Lines 173-191, [TryPost]: [scoped_lock lock(m_Mutex, try_to_lock)];
    [if (lock) { ...; return true; } return false;]. *)
Definition TryPost (t : nat) (f : callable) (s : State) : bool * State :=
  match m_Mutex s with
  | None =>
      (true,
       set_mutex None (critical (TryPostF f) (set_mutex (Some (Producer t)) s)))
  | Some _ => (false, s)
  end.

(** *** The worker loop, [Wait] *)

(** The predicate handed to [m_Condition.wait], lines 141-145. *)
Definition wait_pred (s : State) : bool :=
  negb (empty (m_WorkQueue s)) || m_bDeleteLater s || negb (m_bWork s).

(** [lock.lock()] by thread [t]: possible once the mutex is free. *)
Definition acquire (t : tid) (s : State) : option State :=
  match m_Mutex s with
  | None => Some (set_mutex (Some t) s)
  | Some _ => None
  end.

(** [lock.owns_lock()] of the worker's [scoped_lock]. *)
Definition owns_lock (s : State) : bool :=
  match m_Mutex s with
  | Some Worker => true
  | _ => false
  end.

(** [lock.unlock()] of the worker's [scoped_lock], then on to [c]:
    [boost::unique_lock::unlock] throws when the lock is not owned. *)
Definition unlock_then (c : wpc) (s : State) : State :=
  if owns_lock s then set_pc c (set_mutex None s)
  else set_pc (WFault LockError) s.

(** One step of the worker thread; [None] when it is blocked or has ended. *)
Definition Wait_step (s : State) : option State :=
  match pc s with
  | W131 => set_pc W133 <$> acquire Worker s
  | W133 => Some (set_pc (if m_bWork s then W135 else W168) s)
  | W135 =>
      if owns_lock s then Some (set_pc W140 s)
      else set_pc W140 <$> acquire Worker s
  | W140 => Some (set_pc (if wait_pred s then W147 else W140_block) s)
  | W140_block => Some (set_pc W140_sleep (set_mutex None s))
  | W140_sleep => None
  | W140_wake => set_pc W140 <$> acquire Worker s
  | W147 =>
      if m_bDeleteLater s && empty (m_WorkQueue s)
      then Some (unlock_then WSafeRelease s)
      else Some (set_pc W153 s)
  | W153 =>
      if negb (m_bWork s)
      then Some (unlock_then WSafeRelease s)
      else Some (set_pc W159 s)
  | W159 =>
      match m_WorkQueue s with
      | [] => Some (set_pc (WFault EmptyFront) s)
      | f :: q => Some (unlock_then (W164 f) (log [EvPopFront f] (set_queue q s)))
      end
  | W164 f =>
      match heap s !! f with
      | None => Some (set_pc (WFault (DanglingCall f)) s)
      | Some fn =>
          match Run f fn with
          | Ok evs => Some (set_pc (W165 f) (log evs s))
          | Fault e => Some (set_pc (WFault e) s)
          end
      end
  | W165 f =>
      let s1 := Function_Release f s in
      Some (if faulted s1 then s1 else set_pc W133 s1)
  | W168 => Some (unlock_then WSafeRelease s)
  | WSafeRelease =>
      let s1 := Clear s in
      Some (if faulted s1 then s1 else set_pc WDone s1)
  | WDone => None
  | WFault _ => None
  end.

(** The worker on its own, for at most [n] steps. *)
Fixpoint Wait_run (n : nat) (s : State) : State :=
  match n with
  | 0 => s
  | S n' =>
      match Wait_step s with
      | Some s' => Wait_run n' s'
      | None => s
      end
  end.

(** *** Interleavings *)

(** The instance exists and the process runs. *)
Definition alive (s : State) : bool :=
  match pc s with
  | WDone => false
  | WFault _ => false
  | _ => true
  end.

Inductive label :=
| LLock (t : nat)                    (* a posting thread gets the mutex *)
| LCritical (t : nat) (k : post_call)(* its critical section and unlock *)
| LTryFail (t : nat) (f : callable)  (* [TryPost] finds the mutex taken *)
| LRelease (t : nat)                 (* [Release()] *)
| LReleaseAfterWork (t : nat)        (* [ReleaseAfterWork()] *)
| LWait                              (* a step of the worker *)
| LSpurious.                         (* a spurious wake-up of the worker *)

#[global] Instance post_call_eq_dec : EqDecision post_call.
Proof. solve_decision. Defined.

#[global] Instance label_eq_dec : EqDecision label.
Proof. solve_decision. Defined.

(** The thread that takes a step. *)
Definition thread_of (l : label) : tid :=
  match l with
  | LLock t => Producer t
  | LCritical t _ => Producer t
  | LTryFail t _ => Producer t
  | LRelease t => Producer t
  | LReleaseAfterWork t => Producer t
  | LWait => Worker
  | LSpurious => Worker
  end.

(** A thread that is inside a posting call does not call a shutdown
    operation at the same time. *)
Definition outside (t : nat) (s : State) : bool :=
  negb (bool_decide (m_Mutex s = Some (Producer t))).

Definition step (l : label) (s : State) : option State :=
  match l with
  | LWait => Wait_step s
  | LSpurious =>
      match pc s with
      | W140_sleep => Some (set_pc W140_wake s)
      | _ => None
      end
  | LLock t => if alive s then acquire (Producer t) s else None
  | LCritical t k =>
      if alive s && bool_decide (m_Mutex s = Some (Producer t))
      then Some (set_mutex None (critical k s))
      else None
  | LTryFail t f =>
      if alive s && outside t s
      then match m_Mutex s with Some _ => Some s | None => None end
      else None
  | LRelease t => if alive s && outside t s then Some (Release s) else None
  | LReleaseAfterWork t =>
      if alive s && outside t s then Some (ReleaseAfterWork s) else None
  end.

(** A schedule is a list of labels, run from left to right. *)
Fixpoint run (ls : list label) (s : State) : option State :=
  match ls with
  | [] => Some s
  | l :: ls' =>
      match step l s with
      | Some s' => run ls' s'
      | None => None
      end
  end.

(** A whole posting call as two steps of one thread. *)
Definition sched_post (t : nat) (k : post_call) : list label :=
  [LLock t; LCritical t k].

(** Either shutdown mode is active. *)
Definition shutting_down (s : State) : bool :=
  negb (m_bWork s) || m_bDeleteLater s.

(** ** Observations on traces and states *)

(** The handle an event is about. *)
Definition ev_addr (e : event) : addr :=
  match e with
  | EvNew p => p
  | EvPopFront p => p
  | EvOnCall p _ => p
  | EvBody p _ => p
  | EvOnReturn p _ => p
  | EvRelease p => p
  end.

Definition is_new (e : event) : bool :=
  match e with EvNew _ => true | _ => false end.

(** Handles in the order they were enqueued, taken off the front, and run. *)
Definition posted (tr : list event) : list addr :=
  omap (λ e, match e with EvNew p => Some p | _ => None end) tr.

Definition popped (tr : list event) : list addr :=
  omap (λ e, match e with EvPopFront p => Some p | _ => None end) tr.

Definition ran (tr : list event) : list addr :=
  omap (λ e, match e with EvBody p _ => Some p | _ => None end) tr.

(** The callables that have run, in order, each with its handle. *)
Definition bodies (tr : list event) : list (addr * callable) :=
  omap (λ e, match e with EvBody p c => Some (p, c) | _ => None end) tr.

(** The handle the worker has taken and not yet run. *)
Definition held (s : State) : list addr :=
  match pc s with
  | W164 f => [f]
  | _ => []
  end.

(** The handles the worker still knows about: the one it holds, and the
    queue. *)
Definition pending (s : State) : list addr :=
  match pc s with
  | W164 f => [f]
  | W165 f => [f]
  | _ => []
  end ++ m_WorkQueue s.

(** The handle at [p] has a hook. *)
Definition hooked (hp : gmap addr CServiceFunction) (p : addr) : Prop :=
  ∃ h c, hp !! p = Some (mkFunction (Init (Some h)) c).

(** What the worker logs for one task with a hook, from dequeue to release. *)
Definition task_events (hp : gmap addr CServiceFunction) (p : addr) : list event :=
  match hp !! p with
  | Some (mkFunction (Init (Some h)) c) =>
      [EvPopFront p; EvOnCall p h; EvBody p c; EvOnReturn p h; EvRelease p]
  | _ => []
  end.

(** ** Invariants *)

(** What may follow a state in which [m_bWork] is false: no allocation,
    and events about pending handles only. *)
Definition after_stop (s s' : State) : Prop :=
  m_bWork s' = false ∧
  next s' = next s ∧
  (∀ x, x ∈ pending s' → x ∈ pending s) ∧
  ∃ evs, trace s' = trace s ++ evs ∧
         Forall (λ e, is_new e = false ∧ ev_addr e ∈ pending s) evs.

(** Positions of [Wait] between a lock acquisition and the next unlock. *)
Definition holds_lock_at (c : wpc) : bool :=
  match c with
  | W140 => true
  | W140_block => true
  | W147 => true
  | W153 => true
  | W159 => true
  | _ => false
  end.

(** At those positions the worker is the owner of the mutex. *)
Definition lock_inv (s : State) : Prop :=
  holds_lock_at (pc s) = true → m_Mutex s = Some Worker.

(** First in, first out: while the instance lives, what was taken off the
    front followed by the queue is what was enqueued, and what was taken is
    what has run plus the handle the worker holds; at all times what has
    run is a prefix of what was enqueued. *)
Definition fifo_inv (s : State) : Prop :=
  (alive s = true →
     popped (trace s) ++ m_WorkQueue s = posted (trace s) ∧
     ran (trace s) ++ held s = popped (trace s)) ∧
  ran (trace s) `prefix_of` posted (trace s).

(** Handles are numbered in enqueue order, so no handle is enqueued twice. *)
Definition alloc_inv (s : State) : Prop :=
  posted (trace s) = seq 0 (next s).

(** ** Sample states *)

(** Two handles with a hook in the queue and [m_bWork] cleared. *)
Definition two_queued : State :=
  set_queue [0; 1]
    (set_next 2
       (set_heap (<[1 := Ctor.of_callable_handler (Closure 1) (Some 7)]>
                    (<[0 := Ctor.of_callable_handler (Closure 0) (Some 7)]> ∅))
          (set_work false CServiceThread_new))).

(** One task with a hook posted, then [Release()]. *)
Definition stopped_with_one : State :=
  Release
    (set_mutex None
       (critical (PostFH (Closure 1) (Some 7))
          (set_mutex (Some (Producer 0)) CServiceThread_new))).

(** [TryPost(f1)] then [Post(f2, hook 7)] on a fresh instance, both
    enqueued. *)
Definition two_posted : State :=
  default CServiceThread_new
    (Post 1 (PostFH (Closure 2) (Some 7))
       (TryPost 0 (Closure 1) CServiceThread_new).2).

(** [Post(f)] on a fresh instance, then [ReleaseAfterWork()]: one task
    queued, no further task accepted. *)
Definition one_posted_then_graceful : State :=
  ReleaseAfterWork
    (default CServiceThread_new (Post 0 (PostF (Closure 1)) CServiceThread_new)).

(** The scenario of the design document: tasks A, B, C posted with a hook,
    then [ReleaseAfterWork()]. *)
Definition scenario_ABC : State :=
  default CServiceThread_new
    (run (sched_post 0 (PostFH (Closure 1) (Some 7))
          ++ sched_post 0 (PostFH (Closure 2) (Some 7))
          ++ sched_post 0 (PostFH (Closure 3) (Some 7))
          ++ [LReleaseAfterWork 0])
       CServiceThread_new).

(** ** Further observations and invariants *)

(** The "before" and "after" callbacks that fired, by handle, in order. *)
Definition calls (tr : list event) : list addr :=
  omap (λ e, match e with EvOnCall p _ => Some p | _ => None end) tr.

Definition returns (tr : list event) : list addr :=
  omap (λ e, match e with EvOnReturn p _ => Some p | _ => None end) tr.


(** Positions of [Wait] at which the worker's [scoped_lock] does not own
    the mutex. *)
Definition releases_lock_at (c : wpc) : bool :=
  match c with
  | W131 => true
  | W140_sleep => true
  | W140_wake => true
  | W164 _ => true
  | W165 _ => true
  | WSafeRelease => true
  | WDone => true
  | _ => false
  end.

Definition unlocked_inv (s : State) : Prop :=
  releases_lock_at (pc s) = true → m_Mutex s ≠ Some Worker.

(** What the worker knows after the wait and after each of the two tests
    that follow it. *)
Definition front_inv (s : State) : Prop :=
  (pc s = W147 → wait_pred s = true) ∧
  (pc s = W153 → m_WorkQueue s ≠ [] ∨ m_bWork s = false) ∧
  (pc s = W159 → m_WorkQueue s ≠ []).

(** Ownership of the handles while the instance lives: the allocated
    handles are the pending ones, each once, all below the allocation
    counter, and each has an initialised hook pointer.  Once the instance
    has destroyed itself nothing is left. *)
Definition heap_inv (s : State) : Prop :=
  (alive s = true →
     NoDup (pending s) ∧
     (∀ p, is_Some (heap s !! p) ↔ p ∈ pending s) ∧
     (∀ p, p ∈ pending s → p < next s) ∧
     (∀ p fn, heap s !! p = Some fn → m_pHandler fn ≠ Indeterminate)) ∧
  (pc s = WDone → heap s = ∅ ∧ m_WorkQueue s = []).



(** ** Further sample states *)

(** A fresh instance whose worker has found nothing to do and is between
    the predicate test of line 140 and going to sleep. *)
Definition about_to_sleep : State :=
  default CServiceThread_new (run (repeat LWait 4) CServiceThread_new).

(** A fresh instance whose worker sleeps in [wait] with the mutex released. *)
Definition idle_worker : State :=
  default CServiceThread_new (run (repeat LWait 5) CServiceThread_new).

(** One task with a hook queued, the worker at line 140 with the lock, and
    [Release()] called by another thread at that moment. *)
Definition hard_stop_with_one : State :=
  default CServiceThread_new
    (run (sched_post 0 (PostFH (Closure 1) (Some 7))
          ++ repeat LWait 3 ++ [LRelease 1])
       CServiceThread_new).


(** Runs a closed schedule and keeps the state reached with its run. *)
Ltac reached Hr :=
  lazymatch goal with
  | |- ∃ s, run ?ls ?s0 = Some s ∧ _ =>
      let r := eval vm_compute in (run ls s0) in
      lazymatch r with
      | Some ?x =>
          assert (Hr : run ls s0 = Some x) by (vm_compute; reflexivity);
          exists x; split; [exact Hr|]
      end
  end.

(** * Properties *)

(** ** Records and setters *)

Lemma State_eta s :
  mkState (m_WorkQueue s) (m_Mutex s) (m_bBusy s) (m_bWork s)
          (m_bDeleteLater s) (heap s) (next s) (pc s) (trace s) = s.
Proof. by destruct s. Qed.


Lemma set_mutex_id s : set_mutex (m_Mutex s) s = s.
Proof. apply State_eta. Qed.

Lemma set_mutex_twice o o' s : set_mutex o (set_mutex o' s) = set_mutex o s.
Proof. reflexivity. Qed.

(** ** Clear *)

Lemma Clear_loop_eq s :
  Clear s =
  match m_WorkQueue s with
  | [] => s
  | p :: q =>
      let s1 := Function_Release p s in
      if faulted s1 then s1 else Clear (set_queue (removelast (p :: q)) s1)
  end.
Proof.
  rewrite Clear_equation_1. unfold inspect.
  destruct s as [q ? ? ? ? ? ? ? ?]. destruct q; reflexivity.
Qed.

Lemma removelast_cons_length (a : addr) (l : list addr) :
  length (removelast (a :: l)) = length l.
Proof.
  revert a. induction l as [|x l IH]; intros a; [reflexivity|].
  change (S (length (removelast (x :: l))) = S (length l)). by rewrite IH.
Qed.

Lemma removelast_cons_cons (a b : addr) (l : list addr) :
  removelast (a :: b :: l) = a :: removelast (b :: l).
Proof. reflexivity. Qed.

Lemma Function_Release_trace p s :
  trace (Function_Release p s) = trace s ++ [EvRelease p].
Proof. unfold Function_Release. simpl. by destruct (heap s !! p). Qed.

Lemma Function_Release_live p fn s :
  heap s !! p = Some fn →
  Function_Release p s = set_heap (delete p (heap s)) (log [EvRelease p] s).
Proof. intros H. unfold Function_Release. simpl. by rewrite H. Qed.

Lemma Function_Release_dead p s :
  heap s !! p = None →
  Function_Release p s = set_pc (WFault (DoubleFree p)) (log [EvRelease p] s).
Proof. intros H. unfold Function_Release. simpl. by rewrite H. Qed.

(** [Clear] only ever calls [Release] on the handle at the front: whatever
    it adds to the trace is that one event, repeated. *)
Lemma Clear_trace s :
  ∃ n, trace (Clear s) = trace s ++ repeat (EvRelease (hd 0 (m_WorkQueue s))) n.
Proof.
  remember (length (m_WorkQueue s)) as k eqn:Hk. revert s Hk.
  induction k as [k IH] using lt_wf_ind. intros s Hk.
  rewrite Clear_loop_eq. destruct (m_WorkQueue s) as [|p q] eqn:Hq.
  { exists 0. simpl. by rewrite app_nil_r. }
  cbn zeta. destruct (faulted (Function_Release p s)) eqn:Hf.
  { exists 1. by rewrite Function_Release_trace. }
  destruct q as [|b q].
  { exists 1. rewrite Clear_loop_eq. simpl. by rewrite Function_Release_trace. }
  set (s2 := set_queue _ _).
  destruct (IH (length (m_WorkQueue s2))) with (s := s2) as [n Hn]; [|done|].
  { subst s2 k. cbn [set_queue m_WorkQueue]. rewrite removelast_cons_length.
    simpl. lia. }
  exists (S n). rewrite Hn. subst s2. cbn [set_queue m_WorkQueue trace].
  rewrite Function_Release_trace, removelast_cons_cons. simpl.
  by rewrite <- app_assoc.
Qed.

(** ** C1: [Run] and the hook *)

(** With a hook, [Run] is the "before" callback, the callable, the "after"
    callback, once each and in this order. *)
Lemma Run_with_hook p f h :
  Run p (Ctor.of_callable_handler f (Some h)) =
  Ok [EvOnCall p h; EvBody p f; EvOnReturn p h].
Proof. reflexivity. Qed.

Lemma Run_Ok_inv p fn evs :
  Run p fn = Ok evs →
  ∃ h, m_pHandler fn = Init (Some h) ∧
       evs = [EvOnCall p h; EvBody p (m_Context fn); EvOnReturn p h].
Proof.
  unfold Run. destruct fn as [[|[h|]] c]; simpl; intros H; try discriminate.
  exists h. split; [done|]. by injection H as <-.
Qed.

(** Claim C1, the branch without a hook: [Run] calls
    [m_pHandler->OnCallFunction()] with no test of [m_pHandler], so on a
    handle built by [Post(f)], by [TryPost(f)] or by [Post(f, NULL)] it
    calls through a null pointer before the callable has run; the callable
    does not run alone, it does not run at all. *)
Theorem C1_Run_without_hook_faults (p : addr) (f : callable) :
  Run p (new_handle (PostF f)) = Fault NullDeref ∧
  Run p (new_handle (TryPostF f)) = Fault NullDeref ∧
  Run p (new_handle (PostFH f None)) = Fault NullDeref.
Proof. repeat split. Qed.

(** ** C2: [Clear] at teardown *)

(** Claim C2, two or more handles queued at teardown: [Clear] releases
    index 0 and pops the back, so the second round releases the front
    handle again, which is a double free; the handles behind it are never
    released and stay allocated. No callable or hook runs. *)
Theorem C2_Clear_releases_front_twice (s : State) (p : addr) (q : list addr) :
  m_WorkQueue s = p :: q →
  q ≠ [] →
  is_Some (heap s !! p) →
  faulted s = false →
  pc (Clear s) = WFault (DoubleFree p) ∧
  trace (Clear s) = trace s ++ [EvRelease p; EvRelease p] ∧
  (∀ x, x ≠ p → heap (Clear s) !! x = heap s !! x).
Proof.
  intros Hq Hne [fn Hp] Hf.
  destruct q as [|b q]; [done|].
  rewrite Clear_loop_eq, Hq. cbn zeta.
  rewrite (Function_Release_live _ _ _ Hp).
  replace (faulted _) with false by (symmetry; exact Hf).
  rewrite Clear_loop_eq. cbn [set_queue m_WorkQueue].
  rewrite removelast_cons_cons. cbn zeta.
  rewrite Function_Release_dead by (simpl; apply lookup_delete_eq).
  simpl. repeat split.
  - by rewrite <- app_assoc.
  - intros x Hx. by rewrite lookup_delete_ne.
Qed.

Lemma C2_Clear_releases_front_twice_witness :
  pc (Clear two_queued) = WFault (DoubleFree 0) ∧
  trace (Clear two_queued) = trace two_queued ++ [EvRelease 0; EvRelease 0] ∧
  (∀ x, x ≠ 0 → heap (Clear two_queued) !! x = heap two_queued !! x).
Proof.
  apply (C2_Clear_releases_front_twice two_queued 0 [1]).
  - reflexivity.
  - discriminate.
  - eexists. reflexivity.
  - reflexivity.
Defined.

(** The same from a fresh instance: two tasks posted with a hook, then
    [Release()] before the worker has started; the worker finds [m_bWork]
    cleared, unlocks, and its destructor runs [Clear] on two handles. *)
Example teardown_with_two_queued :
  ∃ s,
    run (sched_post 0 (PostFH (Closure 1) (Some 7))
         ++ sched_post 0 (PostFH (Closure 2) (Some 7))
         ++ [LRelease 0; LWait; LWait; LWait; LWait])
        CServiceThread_new = Some s ∧
    pc s = WFault (DoubleFree 0) ∧
    trace s = [EvNew 0; EvNew 1; EvRelease 0; EvRelease 0] ∧
    heap s !! 1 = Some (Ctor.of_callable_handler (Closure 2) (Some 7)).
Proof. eexists. split; by vm_compute. Qed.

(** ** C6 and C7: the posting calls *)

Lemma critical_shutting_down k s :
  shutting_down s = true → critical k s = s.
Proof.
  unfold shutting_down, critical.
  destruct (m_bWork s), (m_bDeleteLater s); simpl; done.
Qed.

Lemma critical_running k s :
  shutting_down s = false →
  critical k s = notify_all (enqueue (new_handle k) s).
Proof.
  unfold shutting_down, critical.
  destruct (m_bWork s), (m_bDeleteLater s); simpl; done.
Qed.

Lemma lock_unlock_id t s :
  m_Mutex s = None → set_mutex None (set_mutex (Some t) s) = s.
Proof. intros H. rewrite set_mutex_twice, <- H. apply set_mutex_id. Qed.

(** Claim C6: once either shutdown mode is active, any [Post] overload
    returns as soon as it gets the mutex and leaves the whole state as it
    found it: no handle allocated (heap and allocation counter), queue and
    flags unchanged, nothing logged, the worker not notified and no fault
    raised; the critical section itself changes nothing. *)
Theorem C6_Post_after_shutdown_is_noop (t : nat) (k : post_call) (s : State) :
  shutting_down s = true →
  critical k s = s ∧
  Post t k s = match m_Mutex s with None => Some s | Some _ => None end.
Proof.
  intros Hsd. split; [by apply critical_shutting_down|].
  unfold Post. destruct (m_Mutex s) eqn:Hm; [done|].
  rewrite critical_shutting_down by exact Hsd.
  by rewrite lock_unlock_id.
Qed.

Lemma C6_Post_after_shutdown_is_noop_witness :
  critical (PostFH (Closure 5) (Some 7)) (Release two_queued) = Release two_queued ∧
  Post 3 (PostFH (Closure 5) (Some 7)) (Release two_queued) =
  match m_Mutex (Release two_queued) with
  | None => Some (Release two_queued)
  | Some _ => None
  end.
Proof.
  apply (C6_Post_after_shutdown_is_noop 3 (PostFH (Closure 5) (Some 7))
           (Release two_queued)).
  reflexivity.
Defined.

(** Claim C7: the result of [TryPost] is exactly "the mutex was free".
    With the mutex free and a shutdown mode active it answers true and the
    state is unchanged; with the mutex free and no shutdown it answers true
    and the new handle is at the back of the queue; with the mutex taken it
    answers false and the state is unchanged. *)
Theorem C7_TryPost_result_is_lock_acquired (t : nat) (f : callable) (s : State) :
  (TryPost t f s).1 = bool_decide (m_Mutex s = None) ∧
  (m_Mutex s = None → shutting_down s = true → TryPost t f s = (true, s)) ∧
  (m_Mutex s = None → shutting_down s = false →
     (TryPost t f s).1 = true ∧
     m_WorkQueue (TryPost t f s).2 = m_WorkQueue s ++ [next s] ∧
     heap (TryPost t f s).2 !! next s = Some (Ctor.of_callable f)) ∧
  (m_Mutex s ≠ None → TryPost t f s = (false, s)).
Proof.
  unfold TryPost. destruct (m_Mutex s) as [o|] eqn:Hm.
  - repeat split; try done.
  - split; [done|]. split; [|split]; [..|done].
    + intros _ Hsd. rewrite critical_shutting_down by exact Hsd.
      by rewrite lock_unlock_id.
    + intros _ Hsd. cbn [fst snd]. rewrite critical_running by exact Hsd.
      unfold notify_all, enqueue. split; [done|]. simpl.
      destruct (pc s); simpl; (split; [done|apply lookup_insert_eq]).
Qed.

Lemma C7_TryPost_result_is_lock_acquired_witness :
  (TryPost 0 (Closure 1) (Release CServiceThread_new)).1 = true ∧
  TryPost 0 (Closure 1) (Release CServiceThread_new) =
    (true, Release CServiceThread_new) ∧
  m_WorkQueue (TryPost 0 (Closure 1) CServiceThread_new).2 = [0] ∧
  TryPost 0 (Closure 1) (set_mutex (Some Worker) CServiceThread_new) =
    (false, set_mutex (Some Worker) CServiceThread_new).
Proof.
  pose proof (C7_TryPost_result_is_lock_acquired 0 (Closure 1)
                (Release CServiceThread_new)) as (H1 & H2 & _ & _).
  pose proof (C7_TryPost_result_is_lock_acquired 0 (Closure 1)
                CServiceThread_new) as (_ & _ & H3 & _).
  pose proof (C7_TryPost_result_is_lock_acquired 0 (Closure 1)
                (set_mutex (Some Worker) CServiceThread_new)) as (_ & _ & _ & H4).
  split; [exact H1|]. split; [exact (H2 eq_refl eq_refl)|].
  split; [exact (proj1 (proj2 (H3 eq_refl eq_refl)))|].
  apply H4. discriminate.
Defined.

(** ** C10: which constructors initialise the hook pointer *)

(** Claim C10: every constructor a posting call uses, and both [bind]
    constructors, give [m_pHandler] a value, null when no hook is supplied
    and the supplied pointer otherwise; the constructor taking thread
    attributes leaves it indeterminate, and [Run] on such a handle reads it. *)
Theorem C10_hook_pointer_initialisation :
  (∀ f, m_pHandler (Ctor.of_callable f) = Init None) ∧
  (∀ f pHandler,
     m_pHandler (Ctor.of_callable_handler f pHandler) = Init pHandler) ∧
  (∀ func args, m_pHandler (Ctor.of_bind func args) = Init None) ∧
  (∀ pHandler func args,
     m_pHandler (Ctor.of_handler_bind pHandler func args) = Init pHandler) ∧
  (∀ k, ∃ v, m_pHandler (new_handle k) = Init v) ∧
  (∀ attr f, m_pHandler (Ctor.of_attributes attr f) = Indeterminate) ∧
  (∀ attr f p, Run p (Ctor.of_attributes attr f) = Fault IndeterminateRead).
Proof.
  repeat split.
  intros k. destruct k; simpl; eauto.
Qed.

(** ** C9: the busy flag *)

Lemma Function_Release_set_busy b p s :
  Function_Release p (set_busy b s) = set_busy b (Function_Release p s).
Proof. unfold Function_Release. simpl. by destruct (heap s !! p). Qed.

Lemma Clear_set_busy b s : Clear (set_busy b s) = set_busy b (Clear s).
Proof.
  remember (length (m_WorkQueue s)) as k eqn:Hk. revert s Hk.
  induction k as [k IH] using lt_wf_ind. intros s Hk.
  rewrite (Clear_loop_eq s), (Clear_loop_eq (set_busy b s)).
  cbn [set_busy m_WorkQueue].
  destruct (m_WorkQueue s) as [|p q] eqn:Hq; [done|]. cbn zeta.
  rewrite Function_Release_set_busy.
  change (faulted (set_busy b ?x)) with (faulted x).
  destruct (faulted (Function_Release p s)); [done|].
  change (set_queue ?l (set_busy b ?x)) with (set_busy b (set_queue l x)).
  eapply IH; [|reflexivity].
  subst k. cbn [set_queue m_WorkQueue]. rewrite removelast_cons_length.
  simpl. lia.
Qed.

Lemma notify_all_set_busy b s :
  notify_all (set_busy b s) = set_busy b (notify_all s).
Proof. unfold notify_all. simpl. by destruct (pc s). Qed.

Lemma critical_set_busy b k s :
  critical k (set_busy b s) = set_busy b (critical k s).
Proof.
  unfold critical. simpl.
  destruct (negb (m_bDeleteLater s) && m_bWork s); [|done].
  by rewrite <- notify_all_set_busy.
Qed.

Lemma Wait_step_set_busy b s :
  Wait_step (set_busy b s) = set_busy b <$> Wait_step s.
Proof.
  unfold Wait_step. cbn [set_busy pc].
  destruct (pc s) eqn:Hpc; cbn beta iota zeta;
    try rewrite Function_Release_set_busy; try rewrite Clear_set_busy;
    change (faulted (set_busy b ?x)) with (faulted x);
    unfold acquire, unlock_then, owns_lock, wait_pred; simpl;
    repeat (case_match; simpl; try done); done.
Qed.

Lemma step_set_busy l b s : step l (set_busy b s) = set_busy b <$> step l s.
Proof.
  destruct l; unfold step.
  - unfold alive, acquire. simpl. by repeat (case_match; simpl).
  - rewrite critical_set_busy. unfold alive. simpl.
    by repeat (case_match; simpl).
  - unfold alive, outside. simpl. by repeat (case_match; simpl).
  - unfold Release.
    change (set_work false (set_busy b s)) with (set_busy b (set_work false s)).
    rewrite notify_all_set_busy. unfold alive, outside. simpl.
    by repeat (case_match; simpl).
  - unfold ReleaseAfterWork.
    change (set_deleteLater true (set_busy b s))
      with (set_busy b (set_deleteLater true s)).
    rewrite notify_all_set_busy. unfold alive, outside. simpl.
    by repeat (case_match; simpl).
  - apply Wait_step_set_busy.
  - simpl. by repeat (case_match; simpl).
Qed.

Lemma step_busy l s s' : step l s = Some s' → m_bBusy s' = m_bBusy s.
Proof.
  intros H. pose proof (step_set_busy l (m_bBusy s) s) as Hc.
  replace (set_busy (m_bBusy s) s) with s in Hc by (by destruct s).
  rewrite H in Hc. simpl in Hc. injection Hc as Hc. by rewrite Hc.
Qed.

Lemma run_busy ls s s' : run ls s = Some s' → m_bBusy s' = m_bBusy s.
Proof.
  revert s. induction ls as [|l ls IH]; intros s; simpl.
  - by intros [= ->].
  - destruct (step l s) as [s1|] eqn:Hs; [|done].
    intros H. rewrite (IH _ H). by eapply step_busy.
Qed.

(** Claim C9: the constructor sets [m_bBusy] to false; no step of any
    thread and no posting call depends on it or changes it (running from a
    state with another value of the flag gives the same result with that
    value still in place); so it is false in every reachable state. *)
Theorem C9_busy_flag_is_dead_state :
  m_bBusy CServiceThread_new = false ∧
  (∀ l b s, step l (set_busy b s) = set_busy b <$> step l s) ∧
  (∀ t k b s, Post t k (set_busy b s) = set_busy b <$> Post t k s) ∧
  (∀ t f b s,
     TryPost t f (set_busy b s) =
     ((TryPost t f s).1, set_busy b (TryPost t f s).2)) ∧
  (∀ ls s, run ls CServiceThread_new = Some s → m_bBusy s = false).
Proof.
  split; [done|]. split; [apply step_set_busy|].
  split; [|split].
  - intros t k b s. unfold Post. simpl. destruct (m_Mutex s); [done|].
    simpl. f_equal.
    change (set_mutex ?o (set_busy b ?x)) with (set_busy b (set_mutex o x)).
    by rewrite critical_set_busy.
  - intros t f b s. unfold TryPost. simpl. destruct (m_Mutex s); [done|].
    simpl. f_equal.
    change (set_mutex ?o (set_busy b ?x)) with (set_busy b (set_mutex o x)).
    by rewrite critical_set_busy.
  - intros ls s H. by rewrite (run_busy _ _ _ H).
Qed.

Lemma C9_busy_flag_is_dead_state_witness :
  ∃ s, run (sched_post 0 (PostFH (Closure 1) (Some 7)) ++ [LRelease 1; LWait])
           CServiceThread_new = Some s ∧ m_bBusy s = false.
Proof.
  eexists. split; [reflexivity|].
  apply (proj2 (proj2 (proj2 (proj2 C9_busy_flag_is_dead_state)))
           (sched_post 0 (PostFH (Closure 1) (Some 7)) ++ [LRelease 1; LWait])).
  reflexivity.
Defined.

(** ** What a step can change *)

Lemma elem_of_removelast (x : addr) (l : list addr) :
  x ∈ removelast l → x ∈ l.
Proof.
  induction l as [|a l IH]; [done|].
  destruct l as [|b l]; [by intros ?%elem_of_nil|].
  rewrite removelast_cons_cons. intros [->|H]%elem_of_cons.
  - left.
  - right. by apply IH.
Qed.

(** [Clear] touches the queue, the heap, the trace and, on a fault, the
    worker's position; it only shrinks the queue and the heap. *)
Lemma Clear_spec s :
  ∃ n q' h' c',
    Clear s =
      mkState q' (m_Mutex s) (m_bBusy s) (m_bWork s) (m_bDeleteLater s) h'
        (next s) c'
        (trace s ++ repeat (EvRelease (hd 0 (m_WorkQueue s))) n) ∧
    (m_WorkQueue s = [] → n = 0) ∧
    (∀ x, x ∈ q' → x ∈ m_WorkQueue s) ∧
    h' ⊆ heap s.
Proof.
  remember (length (m_WorkQueue s)) as k eqn:Hk. revert s Hk.
  induction k as [k IH] using lt_wf_ind. intros s Hk.
  rewrite Clear_loop_eq. destruct (m_WorkQueue s) as [|p q] eqn:Hq.
  { exists 0, [], (heap s), (pc s). simpl. rewrite app_nil_r.
    split; [destruct s; simpl in *; congruence|]. split; [done|].
    split; [by intros ? ?%elem_of_nil|done]. }
  cbn zeta. destruct (faulted (Function_Release p s)) eqn:Hf.
  { exists 1. unfold Function_Release. simpl.
    destruct (heap s !! p); simpl; do 3 eexists;
      (split; [reflexivity|]); (split; [done|]);
      (split; [by simpl; rewrite Hq|]); [apply delete_subseteq|done]. }
  set (s2 := set_queue _ _).
  destruct (IH (length (m_WorkQueue s2))) with (s := s2)
    as (n & q' & h' & c' & -> & Hn & Hq' & Hh'); [|done|].
  { subst s2 k. cbn [set_queue m_WorkQueue]. rewrite removelast_cons_length.
    simpl. lia. }
  assert (Hs2 : trace s2 = trace s ++ [EvRelease p] ∧ m_Mutex s2 = m_Mutex s ∧
                m_bBusy s2 = m_bBusy s ∧ m_bWork s2 = m_bWork s ∧
                m_bDeleteLater s2 = m_bDeleteLater s ∧ next s2 = next s ∧
                heap s2 ⊆ heap s).
  { subst s2. unfold Function_Release. simpl.
    destruct (heap s !! p); simpl; repeat split; try done.
    apply delete_subseteq. }
  destruct Hs2 as (-> & -> & -> & -> & -> & -> & Hsub).
  destruct q as [|b q].
  - exists 1, q', h', c'. subst s2. cbn [set_queue m_WorkQueue] in *.
    rewrite (Hn eq_refl). simpl. rewrite app_nil_r.
    split; [done|]. split; [done|]. split; [|by etrans].
    intros x Hx. by apply Hq', elem_of_nil in Hx.
  - exists (S n), q', h', c'. subst s2. cbn [set_queue m_WorkQueue] in *.
    rewrite removelast_cons_cons in *. simpl. rewrite <- app_assoc.
    split; [done|]. split; [done|]. split; [|by etrans].
    intros x Hx. apply Hq' in Hx.
    rewrite <- removelast_cons_cons in Hx. by apply elem_of_removelast.
Qed.

(** ** C5: nothing posted after [Release] runs *)

Lemma after_stop_refl s : m_bWork s = false → after_stop s s.
Proof.
  intros H. split; [done|]. split; [done|]. split; [done|].
  exists []. by rewrite app_nil_r.
Qed.

Lemma after_stop_trans s1 s2 s3 :
  after_stop s1 s2 → after_stop s2 s3 → after_stop s1 s3.
Proof.
  intros (_ & Hn1 & Hp1 & evs1 & Ht1 & Hf1) (Hw & Hn2 & Hp2 & evs2 & Ht2 & Hf2).
  split; [done|]. split; [congruence|]. split; [by auto|].
  exists (evs1 ++ evs2). split; [by rewrite Ht2, Ht1, app_assoc|].
  apply Forall_app. split; [done|].
  eapply Forall_impl; [exact Hf2|]. intros e [? ?]. auto.
Qed.

(** Same state up to the mutex and the worker's position, position not
    one that holds a handle. *)
Lemma after_stop_frame s s' :
  m_bWork s = false →
  m_bWork s' = false → next s' = next s → trace s' = trace s →
  m_WorkQueue s' = m_WorkQueue s →
  (∀ f, pc s' ≠ W164 f) → (∀ f, pc s' ≠ W165 f) →
  after_stop s s'.
Proof.
  intros Hw Hw' Hn Ht Hq H4 H5.
  split; [done|]. split; [done|]. split.
  - unfold pending. rewrite Hq. intros x Hx.
    destruct (pc s');
      first [by apply elem_of_app; right|by edestruct H4|by edestruct H5].
  - exists []. by rewrite app_nil_r.
Qed.

Lemma Wait_step_after_stop s s' :
  m_bWork s = false → Wait_step s = Some s' → after_stop s s'.
Proof.
  intros Hw. unfold Wait_step.
  destruct (pc s) eqn:Hpc; try done.
  - unfold acquire. destruct (m_Mutex s); intros [= <-].
    by apply after_stop_frame.
  - intros [= <-]. apply after_stop_frame; try done; simpl; rewrite Hw; done.
  - unfold acquire, owns_lock. repeat case_match; intros [= <-];
      by apply after_stop_frame.
  - intros [= <-]. apply after_stop_frame; try done; simpl; by case_match.
  - intros [= <-]. by apply after_stop_frame.
  - unfold acquire. destruct (m_Mutex s); intros [= <-].
    by apply after_stop_frame.
  - unfold unlock_then. repeat case_match; intros [= <-];
      by apply after_stop_frame.
  - rewrite Hw. simpl. unfold unlock_then. repeat case_match; intros [= <-];
      by apply after_stop_frame.
  - destruct (m_WorkQueue s) as [|f q] eqn:Hq; intros [= <-].
    { apply after_stop_frame; try done. }
    unfold unlock_then, owns_lock. simpl.
    assert (Hin : ∀ x, x ∈ f :: q → x ∈ pending s).
    { intros x Hx. unfold pending. rewrite Hpc, Hq. done. }
    case_match; simpl.
    + split; [done|]. split; [done|]. split; [by apply Hin|].
      exists [EvPopFront f]. split; [done|].
      apply Forall_singleton. split; [done|]. apply Hin. left.
    + split; [done|]. split; [done|]. split.
      { intros x Hx. apply Hin. by right. }
      exists [EvPopFront f]. split; [done|].
      apply Forall_singleton. split; [done|]. apply Hin. left.
  - assert (Hin : ∀ x, x ∈ f :: m_WorkQueue s → x ∈ pending s).
    { intros x Hx. unfold pending. by rewrite Hpc. }
    destruct (heap s !! f) as [fn|]; [|intros [= <-]].
    2:{ split; [done|]. split; [done|]. split.
        - intros x Hx. apply Hin. by right.
        - exists []. by rewrite app_nil_r. }
    destruct (Run f fn) as [evs|e] eqn:HR; intros [= <-].
    + apply Run_Ok_inv in HR as (h & _ & ->).
      split; [done|]. split; [done|]. split; [by apply Hin|].
      eexists. split; [reflexivity|].
      repeat (apply Forall_cons; split; [split; [done|apply Hin; left]|]).
      apply Forall_nil_2.
    + split; [done|]. split; [done|]. split.
      { intros x Hx. apply Hin. by right. }
      exists []. by rewrite app_nil_r.
  - assert (Hin : ∀ x, x ∈ f :: m_WorkQueue s → x ∈ pending s).
    { intros x Hx. unfold pending. by rewrite Hpc. }
    cbn zeta. unfold Function_Release. simpl.
    destruct (heap s !! f); simpl; intros [= <-].
    + unfold faulted. simpl. rewrite Hpc.
      split; [done|]. split; [done|]. split.
      { intros x Hx. apply Hin. by right. }
      exists [EvRelease f]. split; [done|].
      apply Forall_singleton. split; [done|]. apply Hin. left.
    + split; [done|]. split; [done|]. split.
      { intros x Hx. apply Hin. by right. }
      exists [EvRelease f]. split; [done|].
      apply Forall_singleton. split; [done|]. apply Hin. left.
  - unfold unlock_then. repeat case_match; intros [= <-];
      by apply after_stop_frame.
  - cbn zeta.
    destruct (Clear_spec s) as (n & q' & h' & c' & -> & Hn & Hq' & Hh').
    assert (Hev : Forall (λ e, is_new e = false ∧ ev_addr e ∈ pending s)
                    (repeat (EvRelease (hd 0 (m_WorkQueue s))) n)).
    { destruct (m_WorkQueue s) as [|p q] eqn:Hq.
      - rewrite (Hn eq_refl). apply Forall_nil_2.
      - apply Forall_forall. intros e He.
        apply list_elem_of_In, repeat_spec in He as ->.
        split; [done|]. unfold pending. rewrite Hpc, Hq. simpl. left. }
    assert (Hsub : ∀ x, x ∈ q' → x ∈ pending s).
    { intros x Hx. unfold pending. rewrite Hpc. by apply Hq'. }
    case_match; intros [= <-].
    + split; [done|]. split; [done|]. split; [|by eexists].
      unfold pending. simpl. intros x Hx. apply Hsub.
      unfold faulted in *. simpl in *. by destruct c'.
    + split; [done|]. split; [done|]. split; [|by eexists].
      intros x Hx. by apply Hsub.
Qed.

Lemma after_stop_pending s s' :
  m_bWork s' = false → next s' = next s → trace s' = trace s →
  pending s' = pending s →
  after_stop s s'.
Proof.
  intros Hw Hn Ht Hp. split; [done|]. split; [done|].
  split; [by rewrite Hp|]. exists []. by rewrite app_nil_r.
Qed.

Lemma pending_notify_all s : pending (notify_all s) = pending s.
Proof.
  unfold notify_all, pending. destruct (pc s) eqn:E; simpl; by rewrite ?E.
Qed.

Lemma notify_all_fields s :
  m_bWork (notify_all s) = m_bWork s ∧
  m_bDeleteLater (notify_all s) = m_bDeleteLater s ∧
  m_WorkQueue (notify_all s) = m_WorkQueue s ∧
  m_Mutex (notify_all s) = m_Mutex s ∧
  next (notify_all s) = next s ∧
  heap (notify_all s) = heap s ∧
  trace (notify_all s) = trace s.
Proof. unfold notify_all. by destruct (pc s). Qed.

Lemma step_after_stop l s s' :
  m_bWork s = false → step l s = Some s' → after_stop s s'.
Proof.
  intros Hw. destruct l; unfold step.
  - unfold acquire. repeat case_match; intros ?; simplify_eq.
    by apply after_stop_pending.
  - rewrite critical_shutting_down by (unfold shutting_down; by rewrite Hw).
    case_match; intros ?; simplify_eq. by apply after_stop_pending.
  - repeat case_match; intros ?; simplify_eq. by apply after_stop_pending.
  - case_match; intros ?; simplify_eq. unfold Release.
    destruct (notify_all_fields (set_work false s)) as (?&?&?&?&?&?&?).
    apply after_stop_pending; try done. by rewrite pending_notify_all.
  - case_match; intros ?; simplify_eq. unfold ReleaseAfterWork.
    destruct (notify_all_fields (set_deleteLater true s)) as (?&?&?&?&?&?&?).
    apply after_stop_pending; try done; [simpl in *; congruence|].
    by rewrite pending_notify_all.
  - by apply Wait_step_after_stop.
  - destruct (pc s) eqn:Hpc; intros ?; simplify_eq.
    apply after_stop_pending; try done. unfold pending. simpl. by rewrite Hpc.
Qed.

Lemma run_after_stop ls s s' :
  m_bWork s = false → run ls s = Some s' → after_stop s s'.
Proof.
  revert s. induction ls as [|l ls IH]; intros s Hw; simpl.
  - intros [= <-]. by apply after_stop_refl.
  - destruct (step l s) as [s1|] eqn:Hs; [|done]. intros Hr.
    pose proof (step_after_stop _ _ _ Hw Hs) as H1.
    eapply after_stop_trans; [exact H1|]. apply IH; [|done]. apply H1.
Qed.

(** Claim C5: from a state in which [Release] has cleared [m_bWork],
    whatever the threads do next, the flag stays cleared, every posting
    call finds its critical section a no-op, no handle is allocated, the
    set of handles the worker knows about only shrinks, and every event
    that follows (hook callbacks and callables among them) is about a
    handle that was already queued or held by the worker at that state: a
    task posted afterwards gets no handle and nothing of it runs. *)
Theorem C5_nothing_posted_after_Release_runs (ls : list label) (s s' : State) :
  m_bWork s = false →
  run ls s = Some s' →
  m_bWork s' = false ∧
  (∀ k, critical k s' = s') ∧
  next s' = next s ∧
  (∀ x, x ∈ pending s' → x ∈ pending s) ∧
  ∃ evs, trace s' = trace s ++ evs ∧
         Forall (λ e, is_new e = false ∧ ev_addr e ∈ pending s) evs.
Proof.
  intros Hw Hr. destruct (run_after_stop _ _ _ Hw Hr) as (Hw' & Hn & Hp & Hev).
  split; [done|]. split; [|done].
  intros k. apply critical_shutting_down. unfold shutting_down. by rewrite Hw'.
Qed.

Lemma C5_nothing_posted_after_Release_runs_witness :
  ∃ s',
    run (sched_post 2 (PostFH (Closure 9) (Some 7)) ++ [LWait; LWait; LWait; LWait])
        stopped_with_one = Some s' ∧
    pc s' = WDone ∧
    trace s' = [EvNew 0; EvRelease 0] ∧
    m_bWork s' = false ∧
    next s' = next stopped_with_one.
Proof.
  eexists. split; [vm_compute; reflexivity|].
  split; [reflexivity|]. split; [reflexivity|].
  match goal with
  | |- m_bWork ?x = _ ∧ _ =>
      assert (Hr : run (sched_post 2 (PostFH (Closure 9) (Some 7))
                          ++ [LWait; LWait; LWait; LWait])
                       stopped_with_one = Some x)
        by (vm_compute; reflexivity);
      assert (Hw : m_bWork stopped_with_one = false) by reflexivity;
      destruct (C5_nothing_posted_after_Release_runs _ _ _ Hw Hr)
        as (H1 & _ & H2 & _)
  end.
  split; [exact H1|exact H2].
Defined.

(** ** C8: what the mutex guards *)

Lemma faulted_holds_lock s : faulted s = true → holds_lock_at (pc s) = false.
Proof. unfold faulted. by destruct (pc s). Qed.

Lemma Wait_step_lock_inv s s' : lock_inv s → Wait_step s = Some s' → lock_inv s'.
Proof.
  unfold lock_inv, Wait_step. intros Hinv.
  destruct (pc s) eqn:Hpc; cbn beta iota zeta;
    try specialize (Hinv eq_refl);
    unfold acquire, unlock_then, owns_lock;
    lazymatch goal with
    | |- context [faulted ?x] =>
        destruct (faulted x) eqn:Hf; intros ? H; simplify_eq;
        first [by rewrite (faulted_holds_lock _ Hf) in H|done]
    | _ =>
        repeat case_match; intros ? ?; simplify_eq/=;
        first [done|by case_bool_decide]
    end.
Qed.

Lemma step_lock_inv l s s' : lock_inv s → step l s = Some s' → lock_inv s'.
Proof.
  unfold lock_inv. intros Hinv. destruct l; unfold step.
  - unfold acquire. repeat case_match; intros ?; simplify_eq. simpl.
    intros Hl. specialize (Hinv Hl). congruence.
  - case_match eqn:Hc; intros ?; simplify_eq.
    apply andb_prop in Hc as [_ Hm%bool_decide_eq_true].
    intros Hl. unfold critical in Hl. simpl in Hl.
    assert (holds_lock_at (pc s) = true) as Hl'.
    { revert Hl. case_match; [|done]. unfold notify_all. simpl.
      destruct (pc s) eqn:E; simpl; by rewrite ?E. }
    specialize (Hinv Hl'). congruence.
  - repeat case_match; intros ?; simplify_eq;
      first [done|intros Hl; specialize (Hinv Hl); congruence].
  - case_match; intros ?; simplify_eq. unfold Release, notify_all. simpl.
    destruct (pc s) eqn:E; simpl; rewrite ?E; auto.
  - case_match; intros ?; simplify_eq. unfold ReleaseAfterWork, notify_all.
    simpl. destruct (pc s) eqn:E; simpl; rewrite ?E; auto.
  - by apply Wait_step_lock_inv.
  - destruct (pc s); intros ?; by simplify_eq.
Qed.

Lemma run_lock_inv ls s s' : lock_inv s → run ls s = Some s' → lock_inv s'.
Proof.
  revert s. induction ls as [|l ls IH]; intros s Hinv; simpl.
  - by intros [= <-].
  - destruct (step l s) as [s1|] eqn:Hs; [|done].
    apply IH. by eapply step_lock_inv.
Qed.

Lemma reachable_lock_inv ls s : run ls CServiceThread_new = Some s → lock_inv s.
Proof. apply run_lock_inv. by intros ?. Qed.

(** The worker never writes a flag. *)
Lemma Wait_step_flags s s' :
  Wait_step s = Some s' →
  m_bWork s' = m_bWork s ∧ m_bDeleteLater s' = m_bDeleteLater s.
Proof.
  unfold Wait_step.
  destruct (pc s) eqn:Hpc; cbn beta iota zeta;
    unfold acquire, unlock_then, owns_lock, Function_Release;
    lazymatch goal with
    | |- context [Clear s] =>
        destruct (Clear_spec s) as (n & q' & h' & c' & -> & _);
        case_match; intros ?; by simplify_eq
    | _ => repeat case_match; intros ?; by simplify_eq/=
    end.
Qed.

(** The worker changes the queue at line 161 and in [Clear], nowhere else. *)
Lemma Wait_step_queue s s' :
  Wait_step s = Some s' →
  m_WorkQueue s' ≠ m_WorkQueue s →
  pc s = W159 ∨ pc s = WSafeRelease.
Proof.
  unfold Wait_step.
  destruct (pc s) eqn:Hpc; cbn beta iota zeta; auto;
    unfold acquire, unlock_then, owns_lock, Function_Release;
    repeat case_match; intros ?; by simplify_eq/=.
Qed.

Lemma notify_all_pc s :
  pc (notify_all s) = pc s ∨ (pc s = W140_sleep ∧ pc (notify_all s) = W140_wake).
Proof. unfold notify_all. destruct (pc s) eqn:E; auto. Qed.

(** A step of another thread leaves the worker where it is, or wakes it. *)
Lemma other_step_pc l s s' :
  l ≠ LWait → step l s = Some s' →
  pc s' = pc s ∨ (pc s = W140_sleep ∧ pc s' = W140_wake).
Proof.
  intros Hl. destruct l; unfold step; try done.
  - unfold acquire. repeat case_match; intros ?; simplify_eq. by left.
  - case_match; intros ?; simplify_eq. unfold critical. simpl.
    case_match; [|by left]. apply (notify_all_pc (enqueue _ s)).
  - repeat case_match; intros ?; simplify_eq. by left.
  - case_match; intros ?; simplify_eq. apply (notify_all_pc (set_work _ s)).
  - case_match; intros ?; simplify_eq.
    apply (notify_all_pc (set_deleteLater _ s)).
  - destruct (pc s) eqn:E; intros ?; simplify_eq. by right.
Qed.

(** Claim C8 as it is written: whoever changes the queue or a shutdown flag
    holds the mutex.  It fails at the first [Release()] on a fresh
    instance: the call clears [m_bWork] and the calling thread does not
    hold the mutex, which nobody holds. *)
Lemma C8_Release_writes_flag_without_mutex :
  step (LRelease 0) CServiceThread_new = Some (Release CServiceThread_new) ∧
  m_bWork (Release CServiceThread_new) ≠ m_bWork CServiceThread_new ∧
  m_Mutex CServiceThread_new ≠ Some (thread_of (LRelease 0)).
Proof. split; [reflexivity|]. split; discriminate. Qed.

(** Claim C8, amended.  In every reachable state: a step that changes the
    queue is taken by the thread that holds the mutex, the one exception
    being [Clear] in the destructor, which the worker runs after it has
    unlocked.  In every state: [m_bWork] changes only in [Release] and
    [m_bDeleteLater] only in [ReleaseAfterWork], both taken by a thread
    that does not hold the mutex and neither touching it.  The worker gets
    past line 140 exactly when "queue not empty, or deferred stop, or not
    running" holds, and it goes to sleep only from there with that
    predicate found false. *)
Theorem C8_mutex_discipline :
  (∀ ls l s s',
     run ls CServiceThread_new = Some s →
     step l s = Some s' →
     m_WorkQueue s' ≠ m_WorkQueue s →
     m_Mutex s = Some (thread_of l) ∨ (l = LWait ∧ pc s = WSafeRelease)) ∧
  (∀ l s s',
     step l s = Some s' →
     m_bWork s' ≠ m_bWork s →
     ∃ t, l = LRelease t ∧ s' = Release s ∧
          m_Mutex s ≠ Some (Producer t) ∧ m_Mutex s' = m_Mutex s) ∧
  (∀ l s s',
     step l s = Some s' →
     m_bDeleteLater s' ≠ m_bDeleteLater s →
     ∃ t, l = LReleaseAfterWork t ∧ s' = ReleaseAfterWork s ∧
          m_Mutex s ≠ Some (Producer t) ∧ m_Mutex s' = m_Mutex s) ∧
  (∀ s,
     pc s = W140 →
     Wait_step s =
     Some (set_pc (if negb (empty (m_WorkQueue s)) || m_bDeleteLater s
                      || negb (m_bWork s)
                   then W147 else W140_block) s)) ∧
  (∀ l s s',
     step l s = Some s' →
     pc s' = W140_block →
     pc s = W140_block ∨ (l = LWait ∧ pc s = W140 ∧ wait_pred s = false)) ∧
  (∀ l s s',
     step l s = Some s' →
     pc s' = W140_sleep →
     pc s = W140_sleep ∨ (l = LWait ∧ pc s = W140_block)).
Proof.
  split; [|split; [|split; [|split; [|split]]]].
  - intros ls l s s' Hr Hs Hq. pose proof (reachable_lock_inv _ _ Hr) as Hinv.
    destruct l; unfold step in Hs.
    + unfold acquire in Hs. repeat case_match; by simplify_eq.
    + case_match eqn:Hc; simplify_eq.
      apply andb_prop in Hc as [_ Hm%bool_decide_eq_true]. by left.
    + repeat case_match; by simplify_eq.
    + case_match; simplify_eq. unfold Release in Hq.
      by destruct (notify_all_fields (set_work false s)) as (?&?&?&?).
    + case_match; simplify_eq. unfold ReleaseAfterWork in Hq.
      by destruct (notify_all_fields (set_deleteLater true s)) as (?&?&?&?).
    + destruct (Wait_step_queue _ _ Hs Hq) as [Hpc|Hpc]; [left|by right].
      apply Hinv. by rewrite Hpc.
    + destruct (pc s); by simplify_eq.
  - intros l s s' Hs Hw. destruct l; unfold step in Hs.
    + unfold acquire in Hs. repeat case_match; by simplify_eq.
    + case_match; simplify_eq. exfalso. apply Hw. unfold critical. simpl.
      case_match; [|done].
      by destruct (notify_all_fields (enqueue (new_handle k) s)) as (->&?).
    + repeat case_match; by simplify_eq.
    + case_match eqn:Hc; simplify_eq. exists t.
      apply andb_prop in Hc as [_ Hm]. unfold outside in Hm.
      apply negb_true_iff, bool_decide_eq_false in Hm.
      repeat split; [done|]. unfold Release.
      by destruct (notify_all_fields (set_work false s)) as (?&?&?&->&?).
    + case_match; simplify_eq. exfalso. apply Hw. unfold ReleaseAfterWork.
      by destruct (notify_all_fields (set_deleteLater true s)) as (->&?).
    + by destruct (Wait_step_flags _ _ Hs) as [? ?].
    + destruct (pc s); by simplify_eq.
  - intros l s s' Hs Hw. destruct l; unfold step in Hs.
    + unfold acquire in Hs. repeat case_match; by simplify_eq.
    + case_match; simplify_eq. exfalso. apply Hw. unfold critical. simpl.
      case_match; [|done].
      by destruct (notify_all_fields (enqueue (new_handle k) s)) as (?&->&?).
    + repeat case_match; by simplify_eq.
    + case_match; simplify_eq. exfalso. apply Hw. unfold Release.
      by destruct (notify_all_fields (set_work false s)) as (?&->&?).
    + case_match eqn:Hc; simplify_eq. exists t.
      apply andb_prop in Hc as [_ Hm]. unfold outside in Hm.
      apply negb_true_iff, bool_decide_eq_false in Hm.
      repeat split; [done|]. unfold ReleaseAfterWork.
      by destruct (notify_all_fields (set_deleteLater true s)) as (?&?&?&->&?).
    + by destruct (Wait_step_flags _ _ Hs) as [? ?].
    + destruct (pc s); by simplify_eq.
  - intros s Hpc. unfold Wait_step. by rewrite Hpc.
  - intros l s s' Hs Hpc'. destruct (decide (l = LWait)) as [->|Hl].
    2:{ left. destruct (other_step_pc _ _ _ Hl Hs) as [E|[_ E]]; congruence. }
    revert Hs. unfold step, Wait_step.
    destruct (pc s) eqn:Hpc; cbn beta iota zeta; auto;
      unfold acquire, unlock_then, owns_lock;
      lazymatch goal with
      | |- context [faulted ?x] =>
          destruct (faulted x) eqn:Hf; intros ?; simplify_eq;
          unfold faulted in Hf; by rewrite Hpc' in Hf
      | _ => idtac
      end;
      try (repeat case_match; intros ?; by simplify_eq/=).
    intros ?. simplify_eq. right. split; [done|]. split; [done|].
    simpl in Hpc'. by destruct (wait_pred s).
  - intros l s s' Hs Hpc'. destruct (decide (l = LWait)) as [->|Hl].
    2:{ left. destruct (other_step_pc _ _ _ Hl Hs) as [E|[_ E]]; congruence. }
    revert Hs. unfold step, Wait_step.
    destruct (pc s) eqn:Hpc; cbn beta iota zeta; auto;
      unfold acquire, unlock_then, owns_lock;
      lazymatch goal with
      | |- context [faulted ?x] =>
          destruct (faulted x) eqn:Hf; intros ?; simplify_eq;
          unfold faulted in Hf; by rewrite Hpc' in Hf
      | _ => idtac
      end;
      try (repeat case_match; intros ?; by simplify_eq/=).
Qed.

Lemma C8_mutex_discipline_witness :
  (m_Mutex (set_mutex (Some (Producer 0)) CServiceThread_new)
     = Some (thread_of (LCritical 0 (PostF (Closure 1)))) ∨
   (LCritical 0 (PostF (Closure 1)) = LWait ∧
    pc (set_mutex (Some (Producer 0)) CServiceThread_new) = WSafeRelease)) ∧
  (∃ t, LRelease 0 = LRelease t ∧
        Release CServiceThread_new = Release CServiceThread_new ∧
        m_Mutex CServiceThread_new ≠ Some (Producer t) ∧
        m_Mutex (Release CServiceThread_new) = m_Mutex CServiceThread_new).
Proof.
  destruct C8_mutex_discipline as (H1 & H2 & _).
  split.
  - apply (H1 [LLock 0] (LCritical 0 (PostF (Closure 1)))
             (set_mutex (Some (Producer 0)) CServiceThread_new)
             (set_mutex None
                (critical (PostF (Closure 1))
                   (set_mutex (Some (Producer 0)) CServiceThread_new))));
      [reflexivity|reflexivity|discriminate].
  - apply (H2 (LRelease 0) CServiceThread_new (Release CServiceThread_new));
      [reflexivity|discriminate].
Defined.

(** ** The worker on its own *)

Lemma Wait_run_add n m s : Wait_run (n + m) s = Wait_run m (Wait_run n s).
Proof.
  revert s. induction n as [|n IH]; intros s; [done|]. simpl.
  destruct (Wait_step s) as [s1|] eqn:Hs; [apply IH|].
  destruct m; simpl; [done|]. by rewrite Hs.
Qed.

Lemma Wait_run_stuck n s : Wait_step s = None → Wait_run n s = s.
Proof. intros H. destruct n; simpl; [done|]. by rewrite H. Qed.

Lemma Wait_step_faulted s : faulted s = true → Wait_step s = None.
Proof. unfold faulted, Wait_step. by destruct (pc s). Qed.

(** ** Queue order in every interleaving *)

Lemma posted_app tr evs : posted (tr ++ evs) = posted tr ++ posted evs.
Proof. apply omap_app. Qed.

Lemma popped_app tr evs : popped (tr ++ evs) = popped tr ++ popped evs.
Proof. apply omap_app. Qed.

Lemma ran_app tr evs : ran (tr ++ evs) = ran tr ++ ran evs.
Proof. apply omap_app. Qed.

Lemma releases_project n p :
  posted (repeat (EvRelease p) n) = [] ∧
  popped (repeat (EvRelease p) n) = [] ∧
  ran (repeat (EvRelease p) n) = [].
Proof. induction n as [|n IH]; [done|]. simpl. apply IH. Qed.

Lemma step_alive l s s' : step l s = Some s' → alive s = true.
Proof.
  destruct l; unfold step; try (case_match; [|done]).
  - done.
  - match goal with H : _ && _ = true |- _ => by apply andb_prop in H as [? _] end.
  - match goal with H : _ && _ = true |- _ => by apply andb_prop in H as [? _] end.
  - match goal with H : _ && _ = true |- _ => by apply andb_prop in H as [? _] end.
  - match goal with H : _ && _ = true |- _ => by apply andb_prop in H as [? _] end.
  - unfold Wait_step, alive. by destruct (pc s).
  - unfold alive. by destruct (pc s).
Qed.

(** The invariant is kept by a step that leaves queue and trace alone and
    moves the worker between positions where it holds no handle. *)
Lemma fifo_inv_frame s s' :
  fifo_inv s → alive s = true →
  trace s' = trace s → m_WorkQueue s' = m_WorkQueue s → held s' = held s →
  fifo_inv s'.
Proof.
  intros [Ha Hp] Hal Ht Hq Hh. destruct (Ha Hal) as [H1 H2].
  unfold fifo_inv. rewrite Ht, Hq, Hh. done.
Qed.

Lemma held_notify_all s : held (notify_all s) = held s.
Proof. unfold notify_all, held. destruct (pc s) eqn:E; simpl; by rewrite ?E. Qed.

Lemma Wait_step_fifo_inv s s' : fifo_inv s → Wait_step s = Some s' → fifo_inv s'.
Proof.
  intros Hinv Hs.
  assert (Hal : alive s = true) by (by apply (step_alive LWait _ s')).
  destruct Hinv as [Ha Hp]. destruct (Ha Hal) as [H1 H2].
  assert (Hfr : ∀ s1, trace s1 = trace s → m_WorkQueue s1 = m_WorkQueue s →
                      held s1 = held s → fifo_inv s1).
  { intros s1. by apply fifo_inv_frame. }
  revert Hs. unfold Wait_step.
  destruct (pc s) eqn:Hpc; cbn beta iota zeta; try done;
    unfold acquire, unlock_then, owns_lock.
  - repeat case_match; intros ?; simplify_eq/=.
    apply Hfr; try done. unfold held. simpl. by rewrite Hpc.
  - intros ?; simplify_eq. apply Hfr; try done. unfold held. simpl.
    rewrite Hpc. by destruct (m_bWork s).
  - repeat case_match; intros ?; simplify_eq/=;
      (apply Hfr; try done; unfold held; simpl; by rewrite Hpc).
  - intros ?; simplify_eq. apply Hfr; try done. unfold held. simpl.
    rewrite Hpc. by destruct (wait_pred s).
  - intros ?; simplify_eq. apply Hfr; try done. unfold held. simpl.
    by rewrite Hpc.
  - repeat case_match; intros ?; simplify_eq/=.
    apply Hfr; try done. unfold held. simpl. by rewrite Hpc.
  - repeat case_match; intros ?; simplify_eq/=;
      (apply Hfr; try done; unfold held; simpl; by rewrite Hpc).
  - repeat case_match; intros ?; simplify_eq/=;
      (apply Hfr; try done; unfold held; simpl; by rewrite Hpc).
  - unfold held in H2. rewrite Hpc, app_nil_r in H2.
    destruct (m_WorkQueue s) as [|f q] eqn:Hq; intros ?; simplify_eq.
    { split; [done|]. done. }
    case_match; simpl.
    + split; simpl; rewrite posted_app, ran_app; simpl; rewrite !app_nil_r;
        [|done].
      intros _. rewrite popped_app. simpl.
      rewrite <- app_assoc. simpl. by rewrite H2.
    + split; [done|]. simpl. by rewrite ran_app, posted_app, !app_nil_r.
  - unfold held in H2. rewrite Hpc in H2.
    destruct (heap s !! f) as [fn|]; [|intros ?; simplify_eq; by split].
    destruct (Run f fn) as [evs|e] eqn:HR; intros ?; simplify_eq;
      [|by split].
    apply Run_Ok_inv in HR as (h & _ & ->).
    assert (ran (trace s ++ [EvOnCall f h; EvBody f (m_Context fn); EvOnReturn f h])
            = popped (trace s)) as Hran by (by rewrite ran_app, <- H2).
    split; simpl.
    + intros _. rewrite Hran, popped_app, posted_app. simpl.
      rewrite !app_nil_r. split; [done|]. unfold held. simpl.
      by rewrite ?app_nil_r.
    + rewrite Hran, posted_app, app_nil_r, <- H1. by apply prefix_app_r.
  - unfold held in H2. rewrite Hpc, app_nil_r in H2.
    unfold Function_Release. simpl.
    destruct (heap s !! f); simpl; intros ?; simplify_eq.
    + unfold faulted. simpl. rewrite Hpc. split; simpl.
      * intros _. rewrite popped_app, posted_app, ran_app. simpl.
        rewrite !app_nil_r. split; [done|]. unfold held. simpl.
        by rewrite ?app_nil_r.
      * by rewrite posted_app, ran_app, !app_nil_r.
    + split; [done|]. simpl. by rewrite posted_app, ran_app, !app_nil_r.
  - repeat case_match; intros ?; simplify_eq/=;
      (apply Hfr; try done; unfold held; simpl; by rewrite Hpc).
  - destruct (Clear_spec s) as (n & q' & h' & c' & -> & _).
    destruct (releases_project n (hd 0 (m_WorkQueue s))) as (E1 & E2 & E3).
    case_match eqn:Hf; intros ?; simplify_eq.
    + split; [|simpl; by rewrite posted_app, ran_app, E1, E3, !app_nil_r].
      unfold faulted in Hf. simpl in Hf. unfold alive. simpl.
      by destruct c'.
    + split; [done|]. simpl. by rewrite posted_app, ran_app, E1, E3, !app_nil_r.
Qed.

Lemma fifo_inv_notify_all s : fifo_inv s → fifo_inv (notify_all s).
Proof.
  unfold fifo_inv.
  destruct (notify_all_fields s) as (_&_&->&_&_&_&->).
  rewrite held_notify_all.
  replace (alive (notify_all s)) with (alive s); [done|].
  unfold alive, notify_all. destruct (pc s) eqn:E; simpl; by rewrite ?E.
Qed.

Lemma fifo_inv_enqueue fn s :
  fifo_inv s → alive s = true → fifo_inv (enqueue fn s).
Proof.
  intros [Ha Hp] Hal. destruct (Ha Hal) as [H1 H2].
  unfold fifo_inv, enqueue, held. simpl.
  rewrite popped_app, posted_app, ran_app. simpl. rewrite !app_nil_r.
  split.
  - intros _. split; [by rewrite app_assoc, H1|exact H2].
  - by apply prefix_app_r.
Qed.

Lemma step_fifo_inv l s s' : fifo_inv s → step l s = Some s' → fifo_inv s'.
Proof.
  intros Hinv Hs. pose proof (step_alive _ _ _ Hs) as Hal.
  destruct l; unfold step in Hs.
  - unfold acquire in Hs. repeat case_match; simplify_eq.
    by apply (fifo_inv_frame s).
  - case_match; simplify_eq. unfold critical.
    case_match; [|by apply (fifo_inv_frame s)].
    apply (fifo_inv_frame (notify_all (enqueue (new_handle k) s))); try done.
    + by apply fifo_inv_notify_all, fifo_inv_enqueue.
    + unfold alive, notify_all. simpl. unfold alive in Hal.
      destruct (pc s) eqn:E; simpl; by rewrite ?E.
  - repeat case_match; by simplify_eq.
  - case_match; simplify_eq. unfold Release.
    by apply fifo_inv_notify_all, (fifo_inv_frame s).
  - case_match; simplify_eq. unfold ReleaseAfterWork.
    by apply fifo_inv_notify_all, (fifo_inv_frame s).
  - by eapply Wait_step_fifo_inv.
  - destruct (pc s) eqn:Hpc; simplify_eq.
    apply (fifo_inv_frame s); try done. unfold held. simpl. by rewrite Hpc.
Qed.

Lemma run_fifo_inv ls s s' : fifo_inv s → run ls s = Some s' → fifo_inv s'.
Proof.
  revert s. induction ls as [|l ls IH]; intros s Hinv; simpl.
  - by intros [= <-].
  - destruct (step l s) as [s1|] eqn:Hs; [|done].
    apply IH. by eapply step_fifo_inv.
Qed.

(** In every reachable state the handles whose callable has run are a
    prefix of the handles in enqueue order; while the instance lives, the
    handles taken off the front followed by the queue are exactly the
    handles enqueued, and the ones taken are the ones run plus the one the
    worker holds. *)
Lemma fifo_order ls s :
  run ls CServiceThread_new = Some s →
  ran (trace s) `prefix_of` posted (trace s) ∧
  (alive s = true →
     popped (trace s) ++ m_WorkQueue s = posted (trace s) ∧
     ran (trace s) ++ held s = popped (trace s)).
Proof.
  intros Hr.
  assert (fifo_inv CServiceThread_new) as H0 by (split; done).
  destruct (run_fifo_inv _ _ _ H0 Hr) as [Ha Hp]. done.
Qed.

Lemma Wait_step_alloc s s' :
  Wait_step s = Some s' →
  next s' = next s ∧ posted (trace s') = posted (trace s).
Proof.
  unfold Wait_step.
  destruct (pc s) eqn:Hpc; cbn beta iota zeta; try done;
    unfold acquire, unlock_then, owns_lock;
    lazymatch goal with
    | |- context [Clear s] =>
        destruct (Clear_spec s) as (n & q' & h' & c' & -> & _);
        destruct (releases_project n (hd 0 (m_WorkQueue s))) as (E1 & _);
        case_match; intros ?; simplify_eq; simpl;
        by rewrite posted_app, E1, app_nil_r
    | |- context [Function_Release ?f s] =>
        unfold Function_Release; simpl;
        repeat case_match; intros ?; simplify_eq; simpl;
        rewrite ?posted_app; simpl; by rewrite ?app_nil_r
    | |- context [Run] => idtac
    | _ =>
        repeat case_match; intros ?; simplify_eq/=;
        rewrite ?posted_app; simpl; by rewrite ?app_nil_r
    end.
  destruct (heap s !! f) as [fn|]; [|intros ?; by simplify_eq].
  destruct (Run f fn) as [evs|e] eqn:HR; intros ?; simplify_eq; [|done].
  apply Run_Ok_inv in HR as (h & _ & ->). simpl.
  by rewrite posted_app, app_nil_r.
Qed.

Lemma step_alloc_inv l s s' : alloc_inv s → step l s = Some s' → alloc_inv s'.
Proof.
  unfold alloc_inv. intros Hinv Hs. destruct l; unfold step in Hs.
  - unfold acquire in Hs. repeat case_match; by simplify_eq.
  - case_match; simplify_eq. unfold critical. simpl. case_match; [|done].
    destruct (notify_all_fields (enqueue (new_handle k) s)) as (_&_&_&_&->&_&->).
    cbn [enqueue log set_queue set_next set_heap trace next].
    rewrite posted_app, Hinv, seq_S. done.
  - repeat case_match; by simplify_eq.
  - case_match; simplify_eq. unfold Release.
    by destruct (notify_all_fields (set_work false s)) as (_&_&_&_&->&_&->).
  - case_match; simplify_eq. unfold ReleaseAfterWork.
    by destruct (notify_all_fields (set_deleteLater true s)) as (_&_&_&_&->&_&->).
  - destruct (Wait_step_alloc _ _ Hs) as [-> ->]. done.
  - destruct (pc s); by simplify_eq.
Qed.

Lemma run_alloc_inv ls s s' : alloc_inv s → run ls s = Some s' → alloc_inv s'.
Proof.
  revert s. induction ls as [|l ls IH]; intros s Hinv; simpl.
  - by intros [= <-].
  - destruct (step l s) as [s1|] eqn:Hs; [|done].
    apply IH. by eapply step_alloc_inv.
Qed.


(** ** Draining the queue when every task has a hook *)

Lemma Wait_run_S n s s1 :
  Wait_step s = Some s1 → Wait_run (S n) s = Wait_run n s1.
Proof. intros H. simpl. by rewrite H. Qed.




Lemma ran_task_events hp q :
  (∀ p, p ∈ q → hooked hp p) → ran (concat (map (task_events hp) q)) = q.
Proof.
  induction q as [|p q IH]; intros Hh; [done|].
  simpl. rewrite ran_app, IH by (intros x Hx; apply Hh; by right).
  destruct (Hh p) as (h & c & Hp); [left|].
  unfold task_events. by rewrite Hp.
Qed.


Example scenario_ABC_runs_in_order :
  pc (Wait_run 30 scenario_ABC) = WDone ∧
  bodies (trace (Wait_run 30 scenario_ABC)) =
    [(0, Closure 1); (1, Closure 2); (2, Closure 3)] ∧
  trace (Wait_run 30 scenario_ABC) =
    [EvNew 0; EvNew 1; EvNew 2;
     EvPopFront 0; EvOnCall 0 7; EvBody 0 (Closure 1); EvOnReturn 0 7; EvRelease 0;
     EvPopFront 1; EvOnCall 1 7; EvBody 1 (Closure 2); EvOnReturn 1 7; EvRelease 1;
     EvPopFront 2; EvOnCall 2 7; EvBody 2 (Closure 3); EvOnReturn 2 7; EvRelease 2].
Proof. by vm_compute. Qed.

(** ** C3: the order of execution *)

(** Claim C3 at the two enqueues [T1 = TryPost(f1)], [T2 = Post(f2, hook)]:
    both are in the queue in this order and the worker takes [T1] off the
    front first, but its [Run] calls through the null hook pointer: the
    worker ends there, with neither callable run and [T2] still queued,
    however long it is given. *)
Theorem C3_worker_stops_at_hookless_task :
  m_WorkQueue two_posted = [0; 1] ∧
  heap two_posted !! 0 = Some (Ctor.of_callable (Closure 1)) ∧
  heap two_posted !! 1 = Some (Ctor.of_callable_handler (Closure 2) (Some 7)) ∧
  ∀ n, 8 ≤ n →
    pc (Wait_run n two_posted) = WFault NullDeref ∧
    trace (Wait_run n two_posted) = [EvNew 0; EvNew 1; EvPopFront 0] ∧
    bodies (trace (Wait_run n two_posted)) = [] ∧
    m_WorkQueue (Wait_run n two_posted) = [1].
Proof.
  split; [reflexivity|]. split; [reflexivity|]. split; [reflexivity|].
  intros n Hn. replace n with (8 + (n - 8)) by lia.
  rewrite Wait_run_add.
  assert (Wait_run 8 two_posted =
          set_pc (WFault NullDeref)
            (log [EvPopFront 0] (set_queue [1] two_posted))) as ->
    by (vm_compute; reflexivity).
  rewrite Wait_run_stuck by reflexivity.
  repeat split.
Qed.

Lemma C3_worker_stops_at_hookless_task_witness :
  pc (Wait_run 8 two_posted) = WFault NullDeref ∧
  trace (Wait_run 8 two_posted) = [EvNew 0; EvNew 1; EvPopFront 0] ∧
  bodies (trace (Wait_run 8 two_posted)) = [] ∧
  m_WorkQueue (Wait_run 8 two_posted) = [1].
Proof.
  apply (proj2 (proj2 (proj2 C3_worker_stops_at_hookless_task)) 8). lia.
Defined.

(** ** C4: graceful stop *)

(** Claim C4 at [k = 1] with a task posted without a hook: the worker takes
    the task off the queue and its [Run] calls through the null hook
    pointer; the callable never runs and the worker never reaches its
    self-destruction, at any number of steps. *)
Theorem C4_graceful_stop_faults_on_hookless_task :
  m_WorkQueue one_posted_then_graceful = [0] ∧
  m_bDeleteLater one_posted_then_graceful = true ∧
  (∀ k, critical k one_posted_then_graceful = one_posted_then_graceful) ∧
  ∀ n,
    pc (Wait_run n one_posted_then_graceful) ≠ WDone ∧
    bodies (trace (Wait_run n one_posted_then_graceful)) = [] ∧
    (8 ≤ n → pc (Wait_run n one_posted_then_graceful) = WFault NullDeref).
Proof.
  split; [reflexivity|]. split; [reflexivity|].
  split; [intros k; by apply critical_shutting_down|].
  intros n. destruct (decide (n < 8)) as [Hlt|Hge].
  - do 8 (destruct n as [|n];
            [split; [by vm_compute|split; [by vm_compute|lia]]|]).
    lia.
  - replace n with (8 + (n - 8)) by lia. rewrite Wait_run_add.
    assert (Wait_run 8 one_posted_then_graceful =
            set_pc (WFault NullDeref)
              (log [EvPopFront 0] (set_queue [] one_posted_then_graceful))) as ->
      by (vm_compute; reflexivity).
    rewrite Wait_run_stuck by reflexivity.
    repeat split. discriminate.
Qed.

Lemma C4_graceful_stop_faults_on_hookless_task_witness :
  pc (Wait_run 8 one_posted_then_graceful) = WFault NullDeref.
Proof.
  apply (proj2 (proj2 (proj2 C4_graceful_stop_faults_on_hookless_task)) 8). lia.
Defined.

(** ** Two further observations on shutdown *)

(** A wake-up can be lost: the worker finds the predicate false, then
    [ReleaseAfterWork()] sets the flag and notifies while nobody sleeps,
    then the worker goes to sleep; it has no step of its own left and every
    later posting call is refused without a notification. *)
Example lost_wakeup :
  ∃ s,
    run [LWait; LWait; LWait; LWait; LReleaseAfterWork 0; LWait]
        CServiceThread_new = Some s ∧
    pc s = W140_sleep ∧ m_bDeleteLater s = true ∧ m_WorkQueue s = [] ∧
    Wait_step s = None ∧
    ∀ t k, (s' ← step (LLock t) s; step (LCritical t k) s') = Some s.
Proof.
  eexists. split; [by vm_compute|].
  do 4 (split; [reflexivity|]).
  intros t k. cbn. by rewrite bool_decide_eq_true_2.
Qed.

(** [Release()] while a task runs: the loop test at line 133 fails with the
    lock released at line 162, so line 168 unlocks a lock that is not
    owned; the queue is not cleared and the instance is not destroyed. *)
Example Release_during_task :
  ∃ s,
    run (sched_post 0 (PostFH (Closure 1) (Some 7))
         ++ sched_post 0 (PostFH (Closure 2) (Some 7))
         ++ [LWait; LWait; LWait; LWait; LWait; LWait; LWait]
         ++ [LRelease 1]
         ++ [LWait; LWait; LWait; LWait])
        CServiceThread_new = Some s ∧
    pc s = WFault LockError ∧ m_WorkQueue s = [1] ∧
    bodies (trace s) = [(0, Closure 1)].
Proof. eexists. split; by vm_compute. Qed.

(** * Further properties of the code *)

(** ** The worker's lock at each position *)

Lemma Wait_step_unlocked_inv s s' :
  unlocked_inv s → Wait_step s = Some s' → unlocked_inv s'.
Proof.
  unfold unlocked_inv, Wait_step. intros Hinv.
  destruct (pc s) eqn:Hpc; cbn beta iota zeta;
    try specialize (Hinv eq_refl);
    unfold acquire, unlock_then, owns_lock;
    lazymatch goal with
    | |- context [Clear s] =>
        destruct (Clear_spec s) as (n & q' & h' & c' & -> & _);
        case_match; intros ? Hl; simplify_eq/=; done
    | |- context [Function_Release ?f s] =>
        unfold Function_Release; simpl;
        repeat case_match; intros ? Hl; simplify_eq/=; done
    | _ =>
        repeat case_match; intros ? Hl; simplify_eq/=; done
    end.
Qed.

Lemma step_unlocked_inv l s s' :
  unlocked_inv s → step l s = Some s' → unlocked_inv s'.
Proof.
  intros Hinv Hs. destruct (decide (l = LWait)) as [->|Hl].
  { by eapply Wait_step_unlocked_inv. }
  unfold unlocked_inv in *.
  assert (Hm : m_Mutex s' ≠ Some Worker ∨
               (m_Mutex s' = m_Mutex s)).
  { destruct l; unfold step in Hs; try done.
    - unfold acquire in Hs. repeat case_match; simplify_eq. by left.
    - case_match; simplify_eq. by left.
    - repeat case_match; simplify_eq. by right.
    - case_match; simplify_eq. right. unfold Release.
      by destruct (notify_all_fields (set_work false s)) as (_&_&_&->&_).
    - case_match; simplify_eq. right. unfold ReleaseAfterWork.
      by destruct (notify_all_fields (set_deleteLater true s)) as (_&_&_&->&_).
    - destruct (pc s); simplify_eq. by right. }
  destruct Hm as [Hm|Hm]; [done|]. rewrite Hm. intros Hr. apply Hinv.
  destruct (other_step_pc _ _ _ Hl Hs) as [E|[E1 E2]].
  - by rewrite <- E.
  - by rewrite E1.
Qed.

Lemma run_unlocked_inv ls s s' :
  unlocked_inv s → run ls s = Some s' → unlocked_inv s'.
Proof.
  revert s. induction ls as [|l ls IH]; intros s Hinv; simpl.
  - by intros [= <-].
  - destruct (step l s) as [s1|] eqn:Hs; [|done].
    apply IH. by eapply step_unlocked_inv.
Qed.

(** ** The queue is not empty where the worker reads its front *)

Lemma front_inv_other s s' :
  front_inv s → pc s' = pc s →
  (m_WorkQueue s ≠ [] → m_WorkQueue s' ≠ []) →
  (m_bWork s = false → m_bWork s' = false) →
  (m_bDeleteLater s = true → m_bDeleteLater s' = true) →
  front_inv s'.
Proof.
  intros (H1 & H2 & H3) Hpc Hq Hw Hd. unfold front_inv. rewrite Hpc.
  split; [|split].
  - intros E. specialize (H1 E). unfold wait_pred in *.
    destruct (m_WorkQueue s) as [|a q] eqn:Eq.
    + simpl in H1. destruct (m_bDeleteLater s) eqn:Ed.
      * rewrite Hd by done. by rewrite orb_true_r.
      * destruct (m_bWork s) eqn:Ew; [done|]. rewrite Hw by done.
        by rewrite orb_true_r.
    + destruct (m_WorkQueue s'); [by destruct Hq|done].
  - intros E. destruct (H2 E) as [?|?]; [left|right]; auto.
  - intros E. auto.
Qed.

Lemma Wait_step_front_inv s s' :
  front_inv s → Wait_step s = Some s' → front_inv s'.
Proof.
  unfold Wait_step. intros (H1 & H2 & H3).
  destruct (pc s) eqn:Hpc; cbn beta iota zeta;
    unfold acquire, unlock_then, owns_lock;
    lazymatch goal with
    | |- context [Clear s] =>
        destruct (Clear_spec s) as (n & q' & h' & c' & -> & _);
        intros Hs;
        assert (pc s' = WDone ∨ faulted s' = true) as [E|E]
          by (revert Hs; case_match eqn:Hf; intros ?; simplify_eq; auto);
        unfold front_inv; unfold faulted in *; destruct (pc s'); done
    | |- context [Function_Release ?f s] =>
        unfold Function_Release, faulted; simpl; rewrite ?Hpc;
        repeat case_match; intros ?; simplify_eq/=;
        unfold front_inv; simpl; rewrite ?Hpc; done
    | |- context [Run] =>
        repeat case_match; intros ?; simplify_eq/=; done
    | _ => idtac
    end;
    try (repeat case_match; intros ?; simplify_eq/=; done).
  - (* W147 *)
    specialize (H1 eq_refl). unfold wait_pred in H1.
    case_match eqn:E; [repeat case_match; intros ?; simplify_eq/=; done|].
    intros ?; simplify_eq. unfold front_inv. simpl.
    split; [done|]. split; [|done]. intros _.
    destruct (m_WorkQueue s); [|by left]. right.
    simpl in *. rewrite andb_true_r in E. rewrite E in H1. simpl in H1.
    by destruct (m_bWork s).
  - (* W153 *)
    specialize (H2 eq_refl).
    case_match eqn:E; [repeat case_match; intros ?; simplify_eq/=; done|].
    intros ?; simplify_eq. unfold front_inv. simpl.
    split; [done|]. split; [done|]. intros _.
    destruct H2 as [?|H2]; [done|]. by rewrite H2 in E.
Qed.

Lemma step_front_inv l s s' : front_inv s → step l s = Some s' → front_inv s'.
Proof.
  intros Hinv Hs. destruct (decide (l = LWait)) as [->|Hl].
  { by eapply Wait_step_front_inv. }
  destruct (other_step_pc _ _ _ Hl Hs) as [E|[E1 E2]].
  2:{ unfold front_inv. rewrite E2. done. }
  apply (front_inv_other s); [done|done|..];
    destruct l; unfold step in Hs; try done.
  all: try (unfold acquire in Hs; repeat case_match; by simplify_eq).
  all: try (destruct (pc s); by simplify_eq).
  all: case_match; simplify_eq.
  all: unfold critical, Release, ReleaseAfterWork; simpl.
  all: try case_match; try done.
  all: try (destruct (notify_all_fields (enqueue (new_handle k) s))
              as (E1&E2&E3&_); rewrite ?E1, ?E2, ?E3; simpl; try done;
            by destruct (m_WorkQueue s)).
  all: try (destruct (notify_all_fields (set_work false s))
              as (E1&E2&E3&_); rewrite ?E1, ?E2, ?E3; by simpl).
  all: try (destruct (notify_all_fields (set_deleteLater true s))
              as (E1&E2&E3&_); rewrite ?E1, ?E2, ?E3; by simpl).
Qed.

Lemma run_front_inv ls s s' : front_inv s → run ls s = Some s' → front_inv s'.
Proof.
  revert s. induction ls as [|l ls IH]; intros s Hinv; simpl.
  - by intros [= <-].
  - destruct (step l s) as [s1|] eqn:Hs; [|done].
    apply IH. by eapply step_front_inv.
Qed.

(** ** [Clear] on short queues *)

Lemma Clear_nil s : m_WorkQueue s = [] → Clear s = s.
Proof. intros H. by rewrite Clear_loop_eq, H. Qed.

Lemma Clear_single s p fn :
  m_WorkQueue s = [p] → heap s !! p = Some fn → faulted s = false →
  Clear s = set_queue [] (set_heap (delete p (heap s)) (log [EvRelease p] s)).
Proof.
  intros Hq Hp Hf. rewrite Clear_loop_eq, Hq. cbn zeta.
  rewrite (Function_Release_live _ _ _ Hp).
  replace (faulted _) with false by (symmetry; exact Hf).
  by rewrite Clear_nil.
Qed.

Lemma Clear_many_faults s p b q :
  m_WorkQueue s = p :: b :: q → is_Some (heap s !! p) → faulted s = false →
  pc (Clear s) = WFault (DoubleFree p).
Proof.
  intros Hq [fn Hp] Hf. rewrite Clear_loop_eq, Hq. cbn zeta.
  rewrite (Function_Release_live _ _ _ Hp).
  replace (faulted _) with false by (symmetry; exact Hf).
  rewrite Clear_loop_eq. cbn [set_queue m_WorkQueue].
  rewrite removelast_cons_cons. cbn zeta.
  by rewrite Function_Release_dead by (simpl; apply lookup_delete_eq).
Qed.

(** ** Who owns the handles *)

Lemma heap_inv_frame s s' :
  heap_inv s → alive s = true →
  pending s' = pending s → heap s' = heap s → next s' = next s →
  pc s' ≠ WDone →
  heap_inv s'.
Proof.
  intros [Ha _] Hal Hp Hh Hn Hd. specialize (Ha Hal).
  unfold heap_inv. rewrite Hp, Hh, Hn. done.
Qed.

Lemma heap_inv_dead s : faulted s = true → heap_inv s.
Proof.
  unfold faulted, heap_inv, alive. destruct (pc s); try done.
Qed.

Lemma alive_not_faulted s : alive s = true → faulted s = false.
Proof. unfold alive, faulted. by destruct (pc s). Qed.

Lemma pending_enqueue fn s :
  pending (enqueue fn s) = pending s ++ [next s].
Proof. unfold pending, enqueue. simpl. by rewrite app_assoc. Qed.

Lemma heap_inv_enqueue k s :
  heap_inv s → alive s = true → heap_inv (enqueue (new_handle k) s).
Proof.
  intros [Ha _] Hal. destruct (Ha Hal) as (Hnd & Hdom & Hlt & Hin).
  split; [|by intros E; unfold alive in Hal; simpl in E; rewrite E in Hal].
  intros _. rewrite pending_enqueue.
  cbn [enqueue log set_queue set_next set_heap heap next].
  split; [|split; [|split]].
  - apply NoDup_app. split; [done|]. split; [|apply NoDup_singleton].
    intros x Hx ->%list_elem_of_singleton. apply Hlt in Hx. lia.
  - intros p. rewrite elem_of_app, list_elem_of_singleton, <- Hdom.
    rewrite lookup_insert_is_Some.
    destruct (decide (next s = p)); intuition congruence.
  - intros p [Hp| ->%list_elem_of_singleton]%elem_of_app; [|lia].
    apply Hlt in Hp. lia.
  - intros p fn [[<- <-]|[_ Hp]]%lookup_insert_Some; [|by eapply Hin].
    by destruct k.
Qed.

Lemma Wait_step_heap_inv s s' :
  heap_inv s → Wait_step s = Some s' → heap_inv s'.
Proof.
  intros Hinv Hs.
  assert (Hal : alive s = true) by (by apply (step_alive LWait _ s')).
  pose proof Hinv as [Ha _]. destruct (Ha Hal) as (Hnd & Hdom & Hlt & Hin).
  assert (Hfr : ∀ s1, pending s1 = pending s → heap s1 = heap s →
                      next s1 = next s → pc s1 ≠ WDone → heap_inv s1).
  { intros s1. by apply heap_inv_frame. }
  revert Hs. unfold Wait_step.
  destruct (pc s) eqn:Hpc; cbn beta iota zeta; try done;
    unfold acquire, unlock_then, owns_lock;
    lazymatch goal with
    | |- context [Clear s] => idtac
    | |- context [Function_Release ?f s] => idtac
    | |- context [Run] => idtac
    | |- context [EvPopFront] => idtac
    | _ =>
        repeat case_match; intros ?; simplify_eq/=;
        (apply Hfr; [unfold pending; simpl; by rewrite Hpc|done|done|]);
        simpl; repeat case_match; done
    end.
  - (* W159 *)
    destruct (m_WorkQueue s) as [|f q] eqn:Hq; intros ?; simplify_eq.
    { by apply heap_inv_dead. }
    case_match; [|by apply heap_inv_dead].
    apply Hfr; try done. unfold pending. simpl. by rewrite Hpc, Hq.
  - (* W164 *)
    destruct (heap s !! f) as [fn|]; [|intros ?; simplify_eq; by apply heap_inv_dead].
    destruct (Run f fn) as [evs|e];
      intros ?; simplify_eq; [|by apply heap_inv_dead].
    apply Hfr; try done. unfold pending. simpl. by rewrite Hpc.
  - (* W165 *)
    assert (Hf : f ∈ pending s) by (unfold pending; rewrite Hpc; left).
    assert (Hpq : pending s = f :: m_WorkQueue s)
      by (unfold pending; by rewrite Hpc).
    rewrite Hpq in *.
    destruct (proj2 (Hdom f) Hf) as [fn Hfn].
    rewrite (Function_Release_live _ _ _ Hfn).
    replace (faulted _) with false
      by (symmetry; unfold faulted; simpl; by rewrite Hpc).
    intros ?; simplify_eq.
    apply NoDup_cons in Hnd as [Hnin Hnd].
    split; [|done]. intros _. unfold pending. simpl.
    split; [done|]. split; [|split].
    + intros p. rewrite lookup_delete_is_Some, Hdom, elem_of_cons.
      split; [intros [? [?|?]]; congruence|]. intros Hp. split; [|by right].
      intros <-. done.
    + intros p Hp. apply Hlt. by right.
    + intros p fn' [_ Hp]%lookup_delete_Some. by eapply Hin.
  - (* WSafeRelease *)
    assert (Hpq : pending s = m_WorkQueue s)
      by (unfold pending; by rewrite Hpc).
    rewrite Hpq in *.
    pose proof (alive_not_faulted _ Hal) as Hnf.
    destruct (m_WorkQueue s) as [|p [|b q]] eqn:Hq.
    + rewrite Clear_nil by done. rewrite Hnf. intros ?; simplify_eq.
      split; [done|]. intros _. simpl. split; [|done].
      apply map_empty. intros i. apply eq_None_not_Some.
      rewrite Hdom. apply not_elem_of_nil.
    + destruct (proj2 (Hdom p)) as [fn Hfn]; [left|].
      rewrite (Clear_single _ _ _ Hq Hfn Hnf).
      replace (faulted _) with false by (symmetry; exact Hnf).
      intros ?; simplify_eq. split; [done|]. intros _. simpl.
      split; [|done]. apply map_empty. intros i.
      apply eq_None_not_Some. rewrite lookup_delete_is_Some, Hdom.
      rewrite list_elem_of_singleton. intuition congruence.
    + assert (Hc : pc (Clear s) = WFault (DoubleFree p))
        by (apply (Clear_many_faults s p b q Hq); [apply Hdom; left|done]).
      assert (faulted (Clear s) = true) as Hfc
        by (unfold faulted; by rewrite Hc).
      rewrite Hfc. intros ?; simplify_eq. by apply heap_inv_dead.
Qed.

Lemma step_heap_inv l s s' : heap_inv s → step l s = Some s' → heap_inv s'.
Proof.
  intros Hinv Hs. pose proof (step_alive _ _ _ Hs) as Hal.
  assert (Hnd : ∀ x, alive x = true → pc x ≠ WDone)
    by (intros x Hx E; unfold alive in Hx; by rewrite E in Hx).
  destruct l; unfold step in Hs.
  - unfold acquire in Hs. repeat case_match; simplify_eq.
    apply (heap_inv_frame s); try done. by apply Hnd.
  - case_match; simplify_eq. unfold critical.
    case_match.
    + apply (heap_inv_frame (notify_all (enqueue (new_handle k) s))); try done.
      * apply (heap_inv_frame (enqueue (new_handle k) s)).
        -- by apply heap_inv_enqueue.
        -- done.
        -- apply pending_notify_all.
        -- by destruct (notify_all_fields (enqueue (new_handle k) s))
             as (_&_&_&_&_&->&_).
        -- by destruct (notify_all_fields (enqueue (new_handle k) s))
             as (_&_&_&_&->&_&_).
        -- destruct (notify_all_pc (enqueue (new_handle k) s)) as [->|[_ ->]];
             [by apply Hnd|done].
      * unfold alive. unfold alive in Hal.
        destruct (notify_all_pc (enqueue (new_handle k) s)) as [->|[_ ->]];
          done.
      * simpl.
        destruct (notify_all_pc (enqueue (new_handle k) s)) as [->|[_ ->]];
          [by apply Hnd|done].
    + apply (heap_inv_frame s); try done. by apply Hnd.
  - repeat case_match; by simplify_eq.
  - case_match; simplify_eq. unfold Release.
    destruct (notify_all_fields (set_work false s)) as (_&_&_&_&En&Eh&_).
    apply (heap_inv_frame s); try done.
    + by rewrite pending_notify_all.
    + destruct (notify_all_pc (set_work false s)) as [->|[_ ->]];
        [by apply Hnd|done].
  - case_match; simplify_eq. unfold ReleaseAfterWork.
    destruct (notify_all_fields (set_deleteLater true s)) as (_&_&_&_&En&Eh&_).
    apply (heap_inv_frame s); try done.
    + by rewrite pending_notify_all.
    + destruct (notify_all_pc (set_deleteLater true s)) as [->|[_ ->]];
        [by apply Hnd|done].
  - by eapply Wait_step_heap_inv.
  - destruct (pc s) eqn:Hpc; simplify_eq.
    apply (heap_inv_frame s); try done. unfold pending. simpl. by rewrite Hpc.
Qed.

Lemma run_heap_inv ls s s' : heap_inv s → run ls s = Some s' → heap_inv s'.
Proof.
  revert s. induction ls as [|l ls IH]; intros s Hinv; simpl.
  - by intros [= <-].
  - destruct (step l s) as [s1|] eqn:Hs; [|done].
    apply IH. by eapply step_heap_inv.
Qed.

Lemma heap_inv_new : heap_inv CServiceThread_new.
Proof.
  split; [|done]. intros _. unfold pending. simpl.
  split; [apply NoDup_nil_2|]. split; [|split]; try done.
  - intros p. rewrite lookup_empty.
    split; [by intros [? ?]|by intros ?%elem_of_nil].
  - by intros p ?%elem_of_nil.
Qed.

(** ** Hook callbacks and callables go together *)

Lemma calls_app tr evs : calls (tr ++ evs) = calls tr ++ calls evs.
Proof. apply omap_app. Qed.

Lemma returns_app tr evs : returns (tr ++ evs) = returns tr ++ returns evs.
Proof. apply omap_app. Qed.

Lemma releases_no_hooks n p :
  calls (repeat (EvRelease p) n) = [] ∧ returns (repeat (EvRelease p) n) = [].
Proof. induction n as [|n IH]; [done|]. simpl. apply IH. Qed.




Lemma reachable_invs ls s :
  run ls CServiceThread_new = Some s →
  lock_inv s ∧ unlocked_inv s ∧ front_inv s ∧ heap_inv s.
Proof.
  intros Hr. split; [by eapply reachable_lock_inv|]. split; [|split].
  - eapply run_unlocked_inv; [|done]. by intros ?.
  - eapply run_front_inv; [|done]. by split.
  - eapply run_heap_inv; [|done]. apply heap_inv_new.
Qed.



(** Property X1: in every state the instance reaches from its construction,
    under any interleaving of posting threads, stop requests, spurious
    wake-ups and steps of the worker, no handle was posted twice and the
    tasks that ran are a prefix of the tasks that were posted, in posting
    order; while the worker is alive every posted handle is accounted for:
    it ran, or the worker holds it after [pop_front], or it is still in
    the queue, in this order. *)
Theorem X1_fifo_in_every_interleaving (ls : list label) (s : State) :
  run ls CServiceThread_new = Some s →
  NoDup (posted (trace s)) ∧
  ran (trace s) `prefix_of` posted (trace s) ∧
  (alive s = true →
     posted (trace s) = ran (trace s) ++ held s ++ m_WorkQueue s).
Proof.
  intros Hr. destruct (fifo_order _ _ Hr) as [Hp Ha].
  assert (alloc_inv CServiceThread_new) as H0 by done.
  pose proof (run_alloc_inv _ _ _ H0 Hr) as Hs. unfold alloc_inv in Hs.
  split; [rewrite Hs; apply NoDup_seq|]. split; [done|].
  intros Hal. destruct (Ha Hal) as [H1 H2].
  by rewrite <- H1, <- H2, app_assoc.
Qed.

Lemma X1_fifo_in_every_interleaving_witness :
  ∃ s,
    run (sched_post 0 (PostFH (Closure 1) (Some 7)) ++ repeat LWait 7
         ++ sched_post 1 (PostFH (Closure 2) (Some 7)))
        CServiceThread_new = Some s ∧
    NoDup (posted (trace s)) ∧
    ran (trace s) `prefix_of` posted (trace s) ∧
    (alive s = true →
       posted (trace s) = ran (trace s) ++ held s ++ m_WorkQueue s).
Proof.
  reached Hr. exact (X1_fifo_in_every_interleaving _ _ Hr).
Defined.



(** Property X6: while the worker is alive, the task handles that are
    allocated are the handle the worker holds (if any) followed by the
    queued ones, without repetition: no posted handle has leaked or been
    freed early, and every allocated handle has its hook pointer
    initialised by a constructor. *)
Theorem X6_live_handles_are_the_pending_ones (ls : list label) (s : State) :
  run ls CServiceThread_new = Some s →
  alive s = true →
  NoDup (pending s) ∧
  (∀ p, is_Some (heap s !! p) ↔ p ∈ pending s) ∧
  (∀ p fn, heap s !! p = Some fn → ∃ v, m_pHandler fn = Init v).
Proof.
  intros Hr Hal. destruct (reachable_invs _ _ Hr) as (_ & _ & _ & Hh & _).
  destruct (Hh Hal) as (Hnd & Hdom & _ & Hin).
  split; [done|]. split; [done|].
  intros p fn Hp. specialize (Hin _ _ Hp).
  destruct (m_pHandler fn); [done|by eexists].
Qed.

Lemma X6_live_handles_are_the_pending_ones_witness :
  ∃ s,
    run (sched_post 0 (PostFH (Closure 1) (Some 7)) ++ repeat LWait 7
         ++ sched_post 1 (PostF (Closure 2)))
        CServiceThread_new = Some s ∧
    alive s = true ∧
    NoDup (pending s) ∧
    (∀ p, is_Some (heap s !! p) ↔ p ∈ pending s) ∧
    (∀ p fn, heap s !! p = Some fn → ∃ v, m_pHandler fn = Init v).
Proof.
  reached Hr. split; [reflexivity|].
  exact (X6_live_handles_are_the_pending_ones _ _ Hr eq_refl).
Defined.



(** Property X8: from the [wait] of line 140 to the front read of line 159
    the worker owns the lock; a [TryPost] at such a moment returns false and
    changes nothing, and no [Post] call gets into its critical section. *)
Theorem X8_posting_excluded_while_worker_holds_lock
    (ls : list label) (s : State) :
  run ls CServiceThread_new = Some s →
  holds_lock_at (pc s) = true →
  (∀ t f, TryPost t f s = (false, s)) ∧
  (∀ t k, Post t k s = None) ∧
  (∀ t k, step (LCritical t k) s = None) ∧
  (∀ t, step (LLock t) s = None).
Proof.
  intros Hr Hl. pose proof (reachable_lock_inv _ _ Hr Hl) as Hm.
  split; [|split; [|split]].
  - intros t f. unfold TryPost. by rewrite Hm.
  - intros t k. unfold Post. by rewrite Hm.
  - intros t k. unfold step. rewrite Hm.
    rewrite bool_decide_eq_false_2 by done. by rewrite andb_false_r.
  - intros t. unfold step, acquire. rewrite Hm. by case_match.
Qed.

Lemma X8_posting_excluded_while_worker_holds_lock_witness :
  ∃ s,
    run (sched_post 0 (PostFH (Closure 1) (Some 7)) ++ repeat LWait 3)
        CServiceThread_new = Some s ∧
    holds_lock_at (pc s) = true ∧
    (∀ t f, TryPost t f s = (false, s)) ∧
    (∀ t k, Post t k s = None) ∧
    (∀ t k, step (LCritical t k) s = None) ∧
    (∀ t, step (LLock t) s = None).
Proof.
  reached Hr. split; [reflexivity|].
  exact (X8_posting_excluded_while_worker_holds_lock _ _ Hr eq_refl).
Defined.

(** Property X9: the worker never owns the lock while a task runs or is
    released (lines 164 and 165), so a [Post] from another thread goes
    through at that moment, whenever no other producer has the mutex,
    without moving the worker. *)
Theorem X9_task_runs_with_mutex_released (ls : list label) (s : State) (f : addr) :
  run ls CServiceThread_new = Some s →
  pc s = W164 f ∨ pc s = W165 f →
  m_Mutex s ≠ Some Worker ∧
  (m_Mutex s = None →
     ∀ t k, ∃ s', Post t k s = Some s' ∧ pc s' = pc s).
Proof.
  intros Hr Hpc. destruct (reachable_invs _ _ Hr) as (_ & Hu & _).
  split.
  - apply Hu. by destruct Hpc as [-> | ->].
  - intros Hm t k. unfold Post. rewrite Hm. eexists. split; [done|].
    unfold critical. case_match; [|done].
    set (x := enqueue _ _).
    destruct (notify_all_pc x) as [E|[E _]]; [simpl; by rewrite E|].
    subst x. simpl in E. destruct Hpc as [Hpc|Hpc]; by rewrite Hpc in E.
Qed.

Lemma X9_task_runs_with_mutex_released_witness :
  ∃ s,
    run (sched_post 0 (PostFH (Closure 1) (Some 7)) ++ repeat LWait 7)
        CServiceThread_new = Some s ∧
    pc s = W164 0 ∧
    m_Mutex s ≠ Some Worker ∧
    (m_Mutex s = None → ∀ t k, ∃ s', Post t k s = Some s' ∧ pc s' = pc s).
Proof.
  reached Hr. split; [reflexivity|].
  exact (X9_task_runs_with_mutex_released _ _ 0 Hr (or_introl eq_refl)).
Defined.

(** ** Shutdown is permanent *)

Lemma Wait_step_pending s s' :
  Wait_step s = Some s' → ∀ x, x ∈ pending s' → x ∈ pending s.
Proof.
  unfold Wait_step.
  destruct (pc s) eqn:Hpc; cbn beta iota zeta; try done;
    unfold acquire, unlock_then, owns_lock;
    lazymatch goal with
    | |- context [Clear s] => idtac
    | |- context [Function_Release ?f s] => idtac
    | |- context [Run] => idtac
    | |- context [EvPopFront] => idtac
    | _ =>
        repeat case_match; intros ? x; simplify_eq/=;
        unfold pending; simpl; rewrite ?Hpc; simpl;
        repeat case_match; done
    end.
  - destruct (m_WorkQueue s) as [|f q] eqn:Hq; intros ? x; simplify_eq.
    { unfold pending. simpl. by rewrite Hpc, Hq. }
    simpl. destruct (m_Mutex s) as [[|t]|];
      unfold pending; simpl; rewrite Hpc, Hq; simpl; intros Hx;
      first [done|by right].
  - destruct (heap s !! f) as [fn|]; [|intros ? x; simplify_eq].
    2:{ unfold pending. simpl. rewrite ?Hpc. simpl. intros Hx. by right. }
    destruct (Run f fn) as [evs|e]; intros ? x; simplify_eq;
      unfold pending; simpl; rewrite ?Hpc; simpl; [done|].
    intros Hx. by right.
  - unfold Function_Release, faulted. simpl. rewrite ?Hpc.
    destruct (heap s !! f); simpl; intros ? x; simplify_eq;
      unfold pending; simpl; rewrite ?Hpc; simpl; intros Hx; by right.
  - destruct (Clear_spec s) as (n & q' & h' & c' & -> & _ & Hq' & _).
    intros Hs x.
    assert (pending s' = q') as ->.
    { revert Hs. case_match eqn:Hf; intros ?; simplify_eq; [|done].
      unfold pending. simpl. unfold faulted in Hf. simpl in Hf.
      by destruct c'. }
    unfold pending. rewrite Hpc. apply Hq'.
Qed.

Lemma step_shutting_down l s s' :
  shutting_down s = true → step l s = Some s' →
  shutting_down s' = true ∧ next s' = next s ∧
  posted (trace s') = posted (trace s) ∧
  (∀ x, x ∈ pending s' → x ∈ pending s).
Proof.
  intros Hsd Hs. destruct l; unfold step in Hs.
  - unfold acquire in Hs. repeat case_match; by simplify_eq.
  - rewrite critical_shutting_down in Hs by done.
    case_match; by simplify_eq.
  - repeat case_match; by simplify_eq.
  - case_match; simplify_eq. unfold Release, shutting_down.
    destruct (notify_all_fields (set_work false s)) as (->&_&_&_&->&_&->).
    rewrite pending_notify_all. done.
  - case_match; simplify_eq. unfold ReleaseAfterWork, shutting_down.
    destruct (notify_all_fields (set_deleteLater true s)) as (_&->&_&_&->&_&->).
    rewrite pending_notify_all. simpl. by rewrite orb_true_r.
  - destruct (Wait_step_flags _ _ Hs) as [E1 E2].
    destruct (Wait_step_alloc _ _ Hs) as [E3 E4].
    unfold shutting_down in *. rewrite E1, E2.
    repeat split; try done. by apply Wait_step_pending.
  - destruct (pc s) eqn:Hpc; simplify_eq. repeat split; try done.
    unfold pending. simpl. by rewrite Hpc.
Qed.

(** Property X10: shutdown is permanent. From a state in which [m_bWork]
    is false or [m_bDeleteLater] is true, every schedule leads to such a
    state again; no posting call allocates or queues a handle any more
    (the allocation counter and the list of posted handles stay as they
    are), and the handles the worker still knows about only shrink. *)
Theorem X10_shutdown_is_permanent (ls : list label) (s s' : State) :
  shutting_down s = true →
  run ls s = Some s' →
  shutting_down s' = true ∧
  (∀ k, critical k s' = s') ∧
  next s' = next s ∧
  posted (trace s') = posted (trace s) ∧
  (∀ x, x ∈ pending s' → x ∈ pending s).
Proof.
  revert s. induction ls as [|l ls IH]; intros s Hsd; simpl.
  - intros [= <-]. repeat split; try done.
    intros k. by apply critical_shutting_down.
  - destruct (step l s) as [s1|] eqn:Hs; [|done]. intros Hr.
    destruct (step_shutting_down _ _ _ Hsd Hs) as (H1 & H2 & H3 & H4).
    destruct (IH _ H1 Hr) as (I1 & I2 & I3 & I4 & I5).
    repeat split; try done; try congruence. auto.
Qed.

Lemma X10_shutdown_is_permanent_witness :
  shutting_down stopped_with_one = true ∧
  ∃ s',
    run (sched_post 2 (PostFH (Closure 9) (Some 7)) ++ repeat LWait 2)
        stopped_with_one = Some s' ∧
    shutting_down s' = true ∧
    (∀ k, critical k s' = s') ∧
    next s' = next stopped_with_one ∧
    posted (trace s') = posted (trace stopped_with_one) ∧
    (∀ x, x ∈ pending s' → x ∈ pending stopped_with_one).
Proof.
  assert (Hd : shutting_down stopped_with_one = true) by reflexivity.
  split; [exact Hd|]. reached Hr.
  exact (X10_shutdown_is_permanent _ _ _ Hd Hr).
Defined.

(** Property X15: whatever the state, [Clear] changes neither the mutex nor
    a flag nor the allocation counter, invokes no callable and no callback,
    posts nothing, and logs only releases of the handle that was at the
    front of the queue when it started; the queue and the heap only
    shrink. *)
Theorem X15_Clear_only_releases_the_front (s : State) :
  m_Mutex (Clear s) = m_Mutex s ∧
  m_bBusy (Clear s) = m_bBusy s ∧
  m_bWork (Clear s) = m_bWork s ∧
  m_bDeleteLater (Clear s) = m_bDeleteLater s ∧
  next (Clear s) = next s ∧
  (∃ n, trace (Clear s) =
        trace s ++ repeat (EvRelease (hd 0 (m_WorkQueue s))) n) ∧
  posted (trace (Clear s)) = posted (trace s) ∧
  ran (trace (Clear s)) = ran (trace s) ∧
  calls (trace (Clear s)) = calls (trace s) ∧
  returns (trace (Clear s)) = returns (trace s) ∧
  (∀ x, x ∈ m_WorkQueue (Clear s) → x ∈ m_WorkQueue s) ∧
  heap (Clear s) ⊆ heap s.
Proof.
  destruct (Clear_spec s) as (n & q' & h' & c' & -> & _ & Hq & Hh). simpl.
  destruct (releases_project n (hd 0 (m_WorkQueue s))) as (E1 & _ & E3).
  destruct (releases_no_hooks n (hd 0 (m_WorkQueue s))) as (E4 & E5).
  rewrite posted_app, ran_app, calls_app, returns_app, E1, E3, E4, E5.
  rewrite !app_nil_r. repeat split; try done. by exists n.
Qed.

(** Property X16: [Clear] on short queues. An empty queue is left as it
    is; a queue of one live handle is emptied and the handle freed; a front
    handle that is already freed makes the first [Release()] a double
    free. *)
Theorem X16_Clear_of_a_short_queue (s : State) :
  faulted s = false →
  (m_WorkQueue s = [] → Clear s = s) ∧
  (∀ p fn, m_WorkQueue s = [p] → heap s !! p = Some fn →
     Clear s = set_queue [] (set_heap (delete p (heap s)) (log [EvRelease p] s))) ∧
  (∀ p q, m_WorkQueue s = p :: q → heap s !! p = None →
     Clear s = set_pc (WFault (DoubleFree p)) (log [EvRelease p] s)).
Proof.
  intros Hf. split; [apply Clear_nil|]. split.
  - intros p fn Hq Hp. by eapply Clear_single.
  - intros p q Hq Hp. rewrite Clear_loop_eq, Hq. cbn zeta.
    by rewrite Function_Release_dead.
Qed.

Lemma X16_Clear_of_a_short_queue_witness :
  faulted stopped_with_one = false ∧
  (m_WorkQueue stopped_with_one = [] → Clear stopped_with_one = stopped_with_one) ∧
  (∀ p fn, m_WorkQueue stopped_with_one = [p] →
     heap stopped_with_one !! p = Some fn →
     Clear stopped_with_one =
       set_queue [] (set_heap (delete p (heap stopped_with_one))
                       (log [EvRelease p] stopped_with_one))) ∧
  (∀ p q, m_WorkQueue stopped_with_one = p :: q →
     heap stopped_with_one !! p = None →
     Clear stopped_with_one =
       set_pc (WFault (DoubleFree p)) (log [EvRelease p] stopped_with_one)).
Proof.
  assert (Hf : faulted stopped_with_one = false) by reflexivity.
  split; [exact Hf|].
  exact (X16_Clear_of_a_short_queue stopped_with_one Hf).
Defined.

(** Property X11: [Release()] and [ReleaseAfterWork()] write their flag
    and notify without the mutex, so a stop request that comes between the
    predicate test of line 140 and the worker going to sleep is missed: the
    worker sleeps with the predicate true and has no step of its own left,
    and every later [Post] and [TryPost] is refused by the flag test and
    notifies nobody. *)
Theorem X11_stop_request_between_test_and_sleep_is_missed
    (s : State) (stop : State → State) :
  pc s = W140_block →
  stop = Release ∨ stop = ReleaseAfterWork →
  pc (stop s) = W140_block ∧
  ∃ s2, Wait_step (stop s) = Some s2 ∧
        pc s2 = W140_sleep ∧
        shutting_down s2 = true ∧ wait_pred s2 = true ∧
        Wait_step s2 = None ∧
        (∀ t k, Post t k s2 = Some s2) ∧
        (∀ t f, TryPost t f s2 = (true, s2)).
Proof.
  intros Hpc Hstop.
  assert (Hs : pc (stop s) = W140_block ∧ shutting_down (stop s) = true ∧
               wait_pred (stop s) = true).
  { destruct Hstop as [-> | ->]; unfold Release, ReleaseAfterWork, notify_all;
      simpl; rewrite Hpc; unfold shutting_down, wait_pred; simpl;
      by rewrite ?orb_true_r. }
  destruct Hs as (H1 & H2 & H3). split; [done|].
  exists (set_pc W140_sleep (set_mutex None (stop s))).
  split; [unfold Wait_step; by rewrite H1|].
  split; [done|]. split; [done|]. split; [done|]. split; [done|].
  split.
  - intros t k. unfold Post. simpl.
    rewrite critical_shutting_down by done. done.
  - intros t f. unfold TryPost. simpl.
    rewrite critical_shutting_down by done. done.
Qed.

Lemma X11_stop_request_between_test_and_sleep_is_missed_witness :
  pc about_to_sleep = W140_block ∧
  pc (ReleaseAfterWork about_to_sleep) = W140_block ∧
  ∃ s2, Wait_step (ReleaseAfterWork about_to_sleep) = Some s2 ∧
        pc s2 = W140_sleep ∧
        shutting_down s2 = true ∧ wait_pred s2 = true ∧
        Wait_step s2 = None ∧
        (∀ t k, Post t k s2 = Some s2) ∧
        (∀ t f, TryPost t f s2 = (true, s2)).
Proof.
  assert (Hpc : pc about_to_sleep = W140_block) by (vm_compute; reflexivity).
  split; [exact Hpc|].
  exact (X11_stop_request_between_test_and_sleep_is_missed
           about_to_sleep ReleaseAfterWork Hpc (or_intror eq_refl)).
Defined.

(** Property X12: [Release()] during a task. From line 165 with [m_bWork]
    false, the worker releases the finished handle, leaves the loop at line
    133 with the lock released at line 162, and line 168 unlocks a lock it
    does not own: the worker faults there, [SafeRelease] is not reached and
    every queued handle stays allocated. *)
Theorem X12_hard_stop_during_a_task_ends_in_lock_error
    (ls : list label) (s : State) (f : addr) :
  run ls CServiceThread_new = Some s →
  pc s = W165 f →
  m_bWork s = false →
  Wait_run 3 s =
    set_pc (WFault LockError)
      (set_heap (delete f (heap s)) (log [EvRelease f] s)) ∧
  (∀ p, p ∈ m_WorkQueue s → is_Some (heap (Wait_run 3 s) !! p)).
Proof.
  intros Hr Hpc Hw.
  destruct (reachable_invs _ _ Hr) as (_ & Hu & _ & Hh & _).
  assert (Hal : alive s = true) by (unfold alive; by rewrite Hpc).
  destruct (Hh Hal) as (Hnd & Hdom & _).
  assert (Hm : m_Mutex s ≠ Some Worker) by (apply Hu; by rewrite Hpc).
  assert (Hpq : pending s = f :: m_WorkQueue s)
    by (unfold pending; by rewrite Hpc).
  rewrite Hpq in *.
  destruct (proj2 (Hdom f)) as [fn Hfn]; [left|].
  assert (E : Wait_run 3 s =
              set_pc (WFault LockError)
                (set_heap (delete f (heap s)) (log [EvRelease f] s))).
  { erewrite Wait_run_S.
    2:{ unfold Wait_step. rewrite Hpc. cbn zeta.
        rewrite (Function_Release_live _ _ _ Hfn).
        replace (faulted _) with false
          by (symmetry; unfold faulted; simpl; by rewrite Hpc).
        reflexivity. }
    erewrite Wait_run_S by (unfold Wait_step; simpl; by rewrite Hw).
    match goal with
    | |- Wait_run 1 ?x = _ =>
        assert (Wait_step x = Some (set_pc (WFault LockError) x)) as H3
    end.
    { unfold Wait_step, unlock_then, owns_lock.
      cbn [pc set_pc set_heap log m_Mutex].
      by destruct (m_Mutex s) as [[|t]|]. }
    erewrite Wait_run_S by exact H3. reflexivity. }
  split; [done|]. rewrite E. simpl. intros p Hp.
  apply lookup_delete_is_Some. split.
  - intros <-. by apply NoDup_cons in Hnd as [? _].
  - apply Hdom. by right.
Qed.

Lemma X12_hard_stop_during_a_task_ends_in_lock_error_witness :
  ∃ s,
    run (sched_post 0 (PostFH (Closure 1) (Some 7)) ++ repeat LWait 7
         ++ sched_post 1 (PostFH (Closure 2) (Some 7))
         ++ [LRelease 2; LWait])
        CServiceThread_new = Some s ∧
    pc s = W165 0 ∧
    m_bWork s = false ∧
    Wait_run 3 s =
      set_pc (WFault LockError)
        (set_heap (delete 0 (heap s)) (log [EvRelease 0] s)) ∧
    (∀ p, p ∈ m_WorkQueue s → is_Some (heap (Wait_run 3 s) !! p)).
Proof.
  reached Hr. split; [reflexivity|]. split; [reflexivity|].
  exact (X12_hard_stop_during_a_task_ends_in_lock_error _ _ 0 Hr eq_refl eq_refl).
Defined.

(** Property X13: a stop request of either kind to a worker that sleeps
    on an empty queue with the mutex free ends in five steps of the worker
    with the instance destroyed and nothing else changed. *)
Theorem X13_stop_of_an_idle_worker (s : State) (stop : State → State) :
  pc s = W140_sleep →
  m_Mutex s = None →
  m_WorkQueue s = [] →
  stop = Release ∨ stop = ReleaseAfterWork →
  Wait_run 5 (stop s) = set_pc WDone (stop s).
Proof.
  destruct s as [qq mu b w dl hp nx c0 tr].
  cbn [pc m_bWork m_Mutex m_WorkQueue heap m_bDeleteLater m_bBusy next trace].
  intros -> -> -> [-> | ->]; unfold Release, ReleaseAfterWork, notify_all;
    cbn [pc set_work set_deleteLater m_WorkQueue m_Mutex m_bBusy m_bWork
         m_bDeleteLater heap next trace set_pc].
  - do 2 (erewrite Wait_run_S by (unfold Wait_step; cbn; reflexivity)).
    destruct dl.
    + do 2 (erewrite Wait_run_S
              by (unfold Wait_step; cbn; rewrite ?Clear_loop_eq; reflexivity)).
      by rewrite Wait_run_stuck.
    + do 3 (erewrite Wait_run_S
              by (unfold Wait_step; cbn; rewrite ?Clear_loop_eq; reflexivity)).
      reflexivity.
  - do 2 (erewrite Wait_run_S by (unfold Wait_step; cbn; reflexivity)).
    do 2 (erewrite Wait_run_S
            by (unfold Wait_step; cbn; rewrite ?Clear_loop_eq; reflexivity)).
    by rewrite Wait_run_stuck.
Qed.

Lemma X13_stop_of_an_idle_worker_witness :
  pc idle_worker = W140_sleep ∧
  m_Mutex idle_worker = None ∧
  m_WorkQueue idle_worker = [] ∧
  Wait_run 5 (Release idle_worker) = set_pc WDone (Release idle_worker).
Proof.
  assert (H1 : pc idle_worker = W140_sleep) by (vm_compute; reflexivity).
  assert (H2 : m_Mutex idle_worker = None) by (vm_compute; reflexivity).
  assert (H3 : m_WorkQueue idle_worker = []) by (vm_compute; reflexivity).
  split; [exact H1|]. split; [exact H2|]. split; [exact H3|].
  exact (X13_stop_of_an_idle_worker idle_worker Release H1 H2 H3
           (or_introl eq_refl)).
Defined.

(** Property X14: a hard stop with one task queued. The worker, at line
    140 with the lock and [m_bWork] false, leaves through line 155 and the
    destructor: the queued handle is released without having run (no
    callback, no callable), the queue and the heap lose it, the mutex is
    released and the instance destroyed. *)
Theorem X14_hard_stop_discards_one_queued_task
    (s : State) (p : addr) (fn : CServiceFunction) :
  pc s = W140 →
  m_Mutex s = Some Worker →
  m_bWork s = false →
  m_WorkQueue s = [p] →
  heap s !! p = Some fn →
  Wait_run 4 s =
    mkState [] None (m_bBusy s) false (m_bDeleteLater s) (delete p (heap s))
      (next s) WDone (trace s ++ [EvRelease p]).
Proof.
  destruct s as [qq mu b w dl hp nx c0 tr].
  cbn [pc m_bWork m_Mutex m_WorkQueue heap m_bDeleteLater m_bBusy next trace].
  intros -> -> -> -> Hp.
  do 3 (erewrite Wait_run_S
          by (unfold Wait_step; cbn; rewrite ?andb_false_r, ?orb_true_r;
              reflexivity)).
  erewrite Wait_run_S.
  2:{ unfold Wait_step. cbn [pc]. cbn zeta.
      erewrite Clear_single; [|reflexivity|exact Hp|reflexivity].
      reflexivity. }
  reflexivity.
Qed.

Lemma X14_hard_stop_discards_one_queued_task_witness :
  pc hard_stop_with_one = W140 ∧
  m_Mutex hard_stop_with_one = Some Worker ∧
  m_bWork hard_stop_with_one = false ∧
  m_WorkQueue hard_stop_with_one = [0] ∧
  heap hard_stop_with_one !! 0
    = Some (Ctor.of_callable_handler (Closure 1) (Some 7)) ∧
  Wait_run 4 hard_stop_with_one =
    mkState [] None (m_bBusy hard_stop_with_one) false
      (m_bDeleteLater hard_stop_with_one)
      (delete 0 (heap hard_stop_with_one))
      (next hard_stop_with_one) WDone
      (trace hard_stop_with_one ++ [EvRelease 0]).
Proof.
  assert (H1 : pc hard_stop_with_one = W140) by (vm_compute; reflexivity).
  assert (H2 : m_Mutex hard_stop_with_one = Some Worker)
    by (vm_compute; reflexivity).
  assert (H3 : m_bWork hard_stop_with_one = false) by (vm_compute; reflexivity).
  assert (H4 : m_WorkQueue hard_stop_with_one = [0])
    by (vm_compute; reflexivity).
  assert (H5 : heap hard_stop_with_one !! 0
               = Some (Ctor.of_callable_handler (Closure 1) (Some 7)))
    by (vm_compute; reflexivity).
  do 5 (split; [assumption|]).
  exact (X14_hard_stop_discards_one_queued_task _ _ _ H1 H2 H3 H4 H5).
Defined.

(** ** Posting, then a graceful stop *)







